(** * docker-backup-tool: a shallow embedding of [BackupService]

    The development follows [src/backup/backup.service.ts]:
    - [Js]: the JavaScript primitives the service relies on (strings,
      [parseInt], [??], truthiness, [Array.prototype.slice]);
    - [Config]: [extractBackupConfig];
    - [Exec]: [execInContainer];
    - [Retention]: [cleanupOldBackups] over a directory listing, with the
      stable [Array.prototype.sort];
    - [Pipeline]: [executeBackup] and [runBackups] in a state-and-exception
      monad over an explicit host state and event trace.

    Modelling conventions.  Strings are sequences of 8-bit code units; only
    the ASCII white space characters are recognised by [parseInt].  A
    JavaScript number that holds a label's retention is either [NaN] or an
    integer; the integer stands for the double nearest to it, which is exact
    below 2^53 and order-preserving against array lengths above. *)

From Stdlib Require Import ZArith Ascii String.
From stdpp Require Import gmap strings list fin_maps sorting.

Local Open Scope string_scope.
Local Open Scope list_scope.
Local Open Scope Z_scope.

(** ** JavaScript primitives *)
Module Js.

(** A JavaScript number as produced by [parseInt]. *)
Inductive num : Type :=
| NaN
| Num (z : Z).

#[global] Instance num_eq_dec : EqDecision num.
Proof. solve_decision. Defined.

(** A completion: normal return or a thrown [Error] with its message. *)
Inductive completion (A : Type) : Type :=
| Normal (a : A)
| Throw (msg : string).
Arguments Normal {A} a.
Arguments Throw {A} msg.

(** [a ?? b]: the right operand is taken only when the left one is
    [undefined] (or [null]), modelled as [None]. *)
Definition nullish {A : Type} (a : option A) (b : A) : A :=
  match a with
  | Some v => v
  | None => b
  end.
Infix "??" := nullish (at level 45, left associativity).

(** Truthiness of a possibly undefined string: [undefined] and the empty
    string are falsy. *)
Definition truthy (s : option string) : bool :=
  match s with
  | None => false
  | Some EmptyString => false
  | Some (String _ _) => true
  end.

(** [a === 'lit'] for a possibly undefined label value. *)
Definition strict_eq (a : option string) (lit : string) : bool :=
  match a with
  | Some v => bool_decide (v = lit)
  | None => false
  end.

(** [s.includes(needle)] *)
Fixpoint includes (needle s : string) : bool :=
  String.prefix needle s ||
  match s with
  | EmptyString => false
  | String _ s' => includes needle s'
  end.

Fixpoint drop_chars (n : nat) (s : string) : string :=
  match n, s with
  | O, _ => s
  | S _, EmptyString => EmptyString
  | S n', String _ s' => drop_chars n' s'
  end.

(** [s.replace(pat, rep)] with a string pattern: the first occurrence only. *)
Fixpoint replace (pat rep s : string) : string :=
  if String.prefix pat s then rep +:+ drop_chars (String.length pat) s
  else match s with
       | EmptyString => EmptyString
       | String c s' => String c (replace pat rep s')
       end.

(** [s.replace(/[:.]/g, '-')] *)
Fixpoint replace_colon_dot (s : string) : string :=
  match s with
  | EmptyString => EmptyString
  | String c s' =>
      String (if bool_decide (c = ":"%char) || bool_decide (c = "."%char)
              then "-"%char else c)
             (replace_colon_dot s')
  end.

(** *** [parseInt(string)] with no radix argument *)

Definition is_white_space (c : ascii) : bool :=
  let n := Z.of_N (N_of_ascii c) in
  ((9 <=? n) && (n <=? 13)) || (n =? 32).

Fixpoint trim_start (s : string) : string :=
  match s with
  | EmptyString => EmptyString
  | String c s' => if is_white_space c then trim_start s' else s
  end.

Definition digit_value (c : ascii) : option Z :=
  let n := Z.of_N (N_of_ascii c) in
  if (48 <=? n) && (n <=? 57) then Some (n - 48)
  else if (97 <=? n) && (n <=? 122) then Some (n - 87)
  else if (65 <=? n) && (n <=? 90) then Some (n - 55)
  else None.

(** The value of the longest prefix of radix-[radix] digits, [None] when
    that prefix is empty. *)
Fixpoint parse_digits (radix : Z) (acc : option Z) (s : string) : option Z :=
  match s with
  | EmptyString => acc
  | String c s' =>
      match digit_value c with
      | Some d =>
          if d <? radix
          then parse_digits radix (Some (default 0 acc * radix + d)) s'
          else acc
      | None => acc
      end
  end.

Definition parseInt (input : option string) : num :=
  let inputString := default "undefined" input in
  let s := trim_start inputString in
  let sign := if String.prefix "-" s then -1 else 1 in
  let s := if String.prefix "-" s || String.prefix "+" s
           then drop_chars 1 s else s in
  let '(radix, s) :=
    if String.prefix "0x" s || String.prefix "0X" s
    then (16, drop_chars 2 s) else (10, s) in
  match parse_digits radix None s with
  | None => NaN
  | Some mathInt => Num (sign * mathInt)
  end.

(** [n > r] where [n] is an array length. *)
Definition gt_num (n : Z) (r : num) : bool :=
  match r with
  | NaN => false
  | Num z => z <? n
  end.

(** [r >= 1] on numbers; false for [NaN]. *)
Definition ge_one (r : num) : bool :=
  match r with
  | NaN => false
  | Num z => 1 <=? z
  end.

(** [arr.slice(start)]: [NaN] counts as 0, a negative start counts from the
    end, and the start is clamped to the array bounds. *)
Definition slice {A : Type} (start : num) (l : list A) : list A :=
  let len := Z.of_nat (length l) in
  let rel := match start with NaN => 0 | Num z => z end in
  let k := if rel <? 0 then Z.max (len + rel) 0 else Z.min rel len in
  drop (Z.to_nat k) l.

End Js.

Import Js.

(** ** Label-to-configuration mapping *)
Module Config.

(** [Dockerode.ContainerInfo], restricted to the fields the service reads. *)
Record ContainerInfo : Type := {
  Id : string;
  Names : list string;
  Labels : option (gmap string string);
}.

Record BackupConfig : Type := {
  containerId : string;
  containerName : string;
  enabled : bool;
  command : option string;
  location : string;
  schedule : option string;
  retention : num;
  preCommand : option string;
  postCommand : option string;
}.

#[global] Instance BackupConfig_eq_dec : EqDecision BackupConfig.
Proof. solve_decision. Defined.

(** [labels[`${prefix}.${suffix}`]] after [container.Labels || {}]. *)
Definition label (prefix : string) (c : ContainerInfo) (suffix : string)
  : option string :=
  default ∅ (Labels c) !! (prefix +:+ "." +:+ suffix).

(** [container.Names[0]] is [undefined] on an empty name list, and calling
    [replace] on it throws a [TypeError]. *)
Definition extractBackupConfig (prefix : string) (c : ContainerInfo)
  : completion BackupConfig :=
  match Names c with
  | [] => Throw "TypeError"
  | name0 :: _ =>
      Normal {|
        containerId := Id c;
        containerName := replace "/" EmptyString name0;
        enabled := strict_eq (label prefix c "backup") "true";
        command := label prefix c "command";
        location := label prefix c "location" ?? "/tmp/backup";
        schedule := label prefix c "schedule";
        (* parseInt always returns a Number, so the left operand of ?? is
           never undefined *)
        retention := Some (parseInt (label prefix c "retention")) ?? Num 7;
        preCommand := label prefix c "pre_command";
        postCommand := label prefix c "post_command";
      |}
  end.

End Config.

Import Config.

(** ** In-container command execution *)
Module Exec.

(** A ['data'] event of the exec stream: a primitive string, or anything
    else (dockerode hands over Buffers). *)
Inductive chunk : Type :=
| ChunkString (s : string)
| ChunkBuffer (content : string).

(** The [err] argument of a dockerode callback: falsy, an [Error] instance,
    or some other truthy value. *)
Inductive err_arg : Type :=
| NoErr
| ErrInstance (msg : string)
| ErrOther.

(** What the container runtime does with one exec request: the [err] handed
    to the [container.exec] callback, the [err] handed to the [exec.start]
    callback, and the chunks the stream emits before ['end']. *)
Record ExecBehaviour : Type := {
  createErr : err_arg;
  startErr : err_arg;
  chunks : list chunk;
}.

(** How the promise of [execInContainer] settles. *)
Inductive settled : Type :=
| Resolved (output : string)
| Rejected (msg : string).

Definition is_string (c : chunk) : bool :=
  match c with
  | ChunkString _ => true
  | ChunkBuffer _ => false
  end.

(** The ['data'] handler: [if (typeof data === 'string') output += data]. *)
Definition on_data (output : string) (data : chunk) : string :=
  match data with
  | ChunkString s => output +:+ s
  | ChunkBuffer _ => output
  end.

Definition accumulate (cs : list chunk) : string := foldl on_data EmptyString cs.

(** The ['end'] handler. *)
Definition on_end (output : string) : settled :=
  if includes "Error" output || includes "error" output
  then Rejected output
  else Resolved output.

(** [if (err && err instanceof Error) return reject(err)] guards both
    callbacks; any other [err] lets the call proceed. *)
Definition execInContainer (b : ExecBehaviour) : settled :=
  match createErr b with
  | ErrInstance msg => Rejected msg
  | NoErr | ErrOther =>
      match startErr b with
      | ErrInstance msg => Rejected msg
      | NoErr | ErrOther => on_end (accumulate (chunks b))
      end
  end.

End Exec.

Import Exec.

(** ** Retention: pruning a backup directory *)
Module Retention.

(** One entry of a host backup directory.  [removable = false] makes
    [fs.remove] on the entry fail (for instance for lack of permission);
    [statable = false] makes [fs.statSync] on it throw (for instance a
    symbolic link whose target is gone), and [mtime] is what a successful
    [statSync] reports. *)
Record DirEntry : Type := {
  name : string;
  mtime : Z;
  removable : bool;
  statable : bool;
}.

#[global] Instance DirEntry_eq_dec : EqDecision DirEntry.
Proof. solve_decision. Defined.

(** A directory is its listing, in the order [readdir] reports it. *)
Abbreviation Dir := (list DirEntry).

(** The object built for each candidate: [{ name, path, mtime }].  The
    [path] is [path.join(backupPath, name)], which designates the entry
    [name] of the directory being pruned, so it is not stored. *)
Record Candidate : Type := {
  cname : string;
  cmtime : Z;
}.

#[global] Instance Candidate_eq_dec : EqDecision Candidate.
Proof. solve_decision. Defined.

Definition readdir (d : Dir) : list string := name <$> d.

Definition lookup_entry (file : string) (d : Dir) : option DirEntry :=
  snd <$> list_find (λ e, name e = file) d.

(** [fs.statSync(path).mtime]; [None] when the call throws: the path does
    not exist, or the entry cannot be stat'ed. *)
Definition statSync (d : Dir) (file : string) : option Candidate :=
  match lookup_entry file d with
  | Some e =>
      if statable e then Some {| cname := file; cmtime := mtime e |} else None
  | None => None
  end.

(** [file.includes('_')] *)
Definition is_candidate (file : string) : bool := includes "_" file.

(** The comparator [(a, b) => b.mtime.getTime() - a.mtime.getTime()]. *)
Definition by_mtime_desc (a b : Candidate) : Z := cmtime b - cmtime a.

(** [Array.prototype.sort] is stable: [a] stays before [b] unless the
    comparator is positive. *)
Fixpoint sort_insert {A : Type} (cmp : A → A → Z) (x : A) (l : list A)
  : list A :=
  match l with
  | [] => [x]
  | y :: l' =>
      if cmp x y <=? 0 then x :: y :: l' else y :: sort_insert cmp x l'
  end.

Fixpoint sort {A : Type} (cmp : A → A → Z) (l : list A) : list A :=
  match l with
  | [] => []
  | x :: l' => sort_insert cmp x (sort cmp l')
  end.

(** [files.filter(..).map(..).sort(..)]; [None] when a [statSync] throws. *)
Definition backupFiles (d : Dir) : option (list Candidate) :=
  sort by_mtime_desc <$> mapM (statSync d) (filter (λ f, is_candidate f = true) (readdir d)).

(** [fs.remove(path)]: silently does nothing when the path does not exist. *)
Definition fs_remove (file : string) (d : Dir) : completion Dir :=
  match lookup_entry file d with
  | None => Normal d
  | Some e =>
      if removable e
      then Normal (filter (λ e', name e' ≠ file) d)
      else Throw ("EPERM: operation not permitted, unlink " +:+ file)
  end.

(** The outcome of a prune: the directory left behind and the names on
    which [fs.remove] was called, in call order. *)
Record Pruned : Type := {
  remaining : Dir;
  attempted : list string;
}.

(** [for (const file of filesToDelete) { await fs.remove(file.path); }]:
    the first rejection leaves the loop. *)
Fixpoint remove_each (files : list Candidate) (d : Dir) (calls : list string)
  : completion unit * Pruned :=
  match files with
  | [] => (Normal (), {| remaining := d; attempted := calls |})
  | file :: rest =>
      match fs_remove (cname file) d with
      | Normal d' => remove_each rest d' (calls ++ [cname file])
      | Throw msg =>
          (Throw msg, {| remaining := d; attempted := calls ++ [cname file] |})
      end
  end.

(** The body of [cleanupOldBackups] once [readdir] has succeeded; the
    enclosing [catch] swallows whatever is thrown. *)
Definition prune (d : Dir) (retention : num) : Pruned :=
  match backupFiles d with
  | None => {| remaining := d; attempted := [] |}
  | Some files =>
      if gt_num (Z.of_nat (length files)) retention
      then (remove_each (slice retention files) d []).2
      else {| remaining := d; attempted := [] |}
  end.

(** The host file system: directory path to listing.  The entries of a
    listing are leaves: what lies below an entry that is itself a directory
    is not represented. *)
Abbreviation FS := (gmap string (list DirEntry)).

(** [cleanupOldBackups(backupPath, retention)]; [readdir] throws when the
    directory does not exist, which the [catch] swallows as well. *)
Definition cleanupOldBackups (backupPath : string) (retention : num) (fs : FS)
  : FS :=
  match fs !! backupPath with
  | None => fs
  | Some d => <[backupPath := remaining (prune d retention)]> fs
  end.

End Retention.

Import Retention.

(** ** The backup pipeline *)
Module Pipeline.

(** What the service does to the outside world, and the two calls of its
    own methods the specification talks about. *)
Inductive event : Type :=
| EvExecuteBackup (config : BackupConfig)
| EvEnsureDir (path : string)
| EvExec (containerId command : string)
| EvExecAsync (command : string)
| EvCleanup (path : string) (retention : num).

#[global] Instance event_eq_dec : EqDecision event.
Proof. solve_decision. Defined.

(** The host as the service sees it: what has happened so far and the
    backup directories. *)
Record Host : Type := {
  trace : list event;
  fs : FS;
}.

Definition record (e : event) (h : Host) : Host :=
  {| trace := trace h ++ [e]; fs := fs h |}.

Definition with_fs (f : FS) (h : Host) : Host :=
  {| trace := trace h; fs := f |}.

(** The module options and the environment.  Every answer of the
    environment may depend on the whole host state at the time of asking. *)
Record World : Type := {
  labelPrefix : string;
  backupDir : string;
  (** [new Date().toISOString()] *)
  now : Host → string;
  (** [Some msg] when [fs.ensureDir(path)] rejects *)
  ensureDir_err : Host → string → option string;
  (** the runtime's answer to [container.exec] for a container id and command *)
  docker_exec : Host → string → string → ExecBehaviour;
  (** [execAsync(command)]: the host file system afterwards, or a rejection *)
  child_process : Host → string → completion FS;
  (** [docker.listContainers({ all: true })] *)
  listContainers : Host → completion (list ContainerInfo);
}.

(** Computations over the host that return or throw. *)
Definition M (A : Type) : Type := Host → completion A * Host.

#[global] Instance M_ret : MRet M := λ A a h, (Normal a, h).
#[global] Instance M_bind : MBind M := λ A B f m h,
  match m h with
  | (Normal a, h') => f a h'
  | (Throw msg, h') => (Throw msg, h')
  end.

Definition lift {A : Type} (c : completion A) : M A := λ h, (c, h).

(** [try { body } catch (error) { handler }] *)
Definition try_catch {A : Type} (body : M A) (handler : string → M A) : M A :=
  λ h,
    match body h with
    | (Normal a, h') => (Normal a, h')
    | (Throw msg, h') => handler msg h'
    end.

(** [if (cond) { body }] *)
Definition when (cond : bool) (body : M ()) : M () :=
  if cond then body else mret ().

Definition emit (e : event) : M () := λ h, (Normal (), record e h).

(** [path.join(a, b)] where [a] is a directory path in normal form without
    a trailing separator and [b] a plain entry name: the two joined by one
    separator.  The module options declare [backupDir] as a string; a
    [backupDir] that holds [undefined], on which [path.join] throws, and
    arguments that [path.join] would normalise are not covered. *)
Definition path_join (a b : string) : string := a +:+ "/" +:+ b.

Section Service.
Context (W : World).

(** [fs.ensureDir(path)]: creates the directory unless it exists. *)
Definition ensureDir (path : string) : M () := λ h,
  let h1 := record (EvEnsureDir path) h in
  match ensureDir_err W h path with
  | Some msg => (Throw msg, h1)
  | None =>
      (Normal (),
       match fs h !! path with
       | Some _ => h1
       | None => with_fs (<[path := []]> (fs h)) h1
       end)
  end.

(** [this.execInContainer(containerObj, command)] awaited. *)
Definition execIn (id command : string) : M string := λ h,
  let h1 := record (EvExec id command) h in
  match execInContainer (docker_exec W h id command) with
  | Resolved output => (Normal output, h1)
  | Rejected msg => (Throw msg, h1)
  end.

(** [execAsync(command)] awaited. *)
Definition execAsync (command : string) : M () := λ h,
  let h1 := record (EvExecAsync command) h in
  match child_process W h command with
  | Normal f => (Normal (), with_fs f h1)
  | Throw msg => (Throw msg, h1)
  end.

(** [this.cleanupOldBackups(backupPath, retention)] awaited; it never
    throws. *)
Definition cleanup (backupPath : string) (retention : num) : M () := λ h,
  (Normal (),
   with_fs (cleanupOldBackups backupPath retention (fs h))
           (record (EvCleanup backupPath retention) h)).

Definition timestamp : M string := λ h, (Normal (replace_colon_dot (now W h)), h).

Definition backupFileName (config : BackupConfig) (ts : string) : string :=
  containerName config +:+ "_" +:+ ts.

Definition hostBackupPath (config : BackupConfig) : string :=
  path_join (backupDir W) (containerName config).

Definition fullCommand (config : BackupConfig) (ts : string) : string :=
  default EmptyString (command config) +:+ " > " +:+ location config +:+ "/"
    +:+ backupFileName config ts.

Definition copyCommand (config : BackupConfig) (ts : string) : string :=
  "docker cp " +:+ containerId config +:+ ":" +:+ location config +:+ "/"
    +:+ backupFileName config ts +:+ " " +:+ hostBackupPath config +:+ "/".

Definition executeBackup (config : BackupConfig) : M bool :=
  emit (EvExecuteBackup config);;
  ts ← timestamp;
  ensureDir (hostBackupPath config);;
  try_catch
    (when (truthy (preCommand config))
       (execIn (containerId config) (default EmptyString (preCommand config));; mret ());;
     when (truthy (command config))
       (execIn (containerId config) (fullCommand config ts);; mret ());;
     execAsync (copyCommand config ts);;
     when (truthy (postCommand config))
       (execIn (containerId config) (default EmptyString (postCommand config));; mret ());;
     cleanup (hostBackupPath config) (retention config);;
     mret true)
    (λ _, mret false).

(** [getBackupContainers]: a failed query yields no containers. *)
Definition getBackupContainers : M (list ContainerInfo) := λ h,
  match listContainers W h with
  | Normal containers =>
      (Normal (filter (λ c, strict_eq (label (labelPrefix W) c "backup") "true" = true)
                      containers), h)
  | Throw _ => (Normal [], h)
  end.

(** One element of the run summary. *)
Record RunResult : Type := {
  container : string;
  success : bool;
}.

(** A container passes both guards of the loop body. *)
Definition eligible (config : BackupConfig) : bool :=
  enabled config && truthy (command config).

(** [for (const container of containers) { ... }] *)
Fixpoint run_loop (containers : list ContainerInfo) (results : list RunResult)
  : M (list RunResult) :=
  match containers with
  | [] => mret results
  | c :: rest =>
      config ← lift (extractBackupConfig (labelPrefix W) c);
      if negb (enabled config) then run_loop rest results
      else if negb (truthy (command config)) then run_loop rest results
      else
        ok ← executeBackup config;
        run_loop rest
          (results ++ [{| container := containerName config; success := ok |}])
  end.

(** [runBackups]: [None] is the early [return;] on an empty discovery. *)
Definition runBackups : M (option (list RunResult)) :=
  containers ← getBackupContainers;
  if bool_decide (length containers = 0%nat) then mret None
  else results ← run_loop containers []; mret (Some results).

End Service.

End Pipeline.

Import Pipeline.

(** ** Module options *)
Module Options.

(** A [Partial<BackupModuleOptions>] object: its own properties by name.
    A property that is present may hold [undefined] ([None]). *)
Abbreviation PartialOptions := (gmap string (option string)).

Definition defaults : PartialOptions :=
  {[ "backupDir" := Some "/backups";
     "cronSchedule" := Some "0 2 * * *";
     "labelPrefix" := Some "docker-backup-tool" ]}.

(** [BackupModule.forRoot(options)]: the object
    [{ backupDir: .., cronSchedule: .., labelPrefix: .., ...options }].  The
    spread copies every own property of [options], whatever it holds, over
    the defaults; spreading [undefined] copies nothing. *)
Definition forRoot (options : option PartialOptions) : PartialOptions :=
  default ∅ options ∪ defaults.

(** [AppModule]: all three properties are passed, each holding
    [process.env.X], which is [undefined] for an unset variable. *)
Definition appModule (env : gmap string string) : PartialOptions :=
  forRoot (Some {[ "labelPrefix" := env !! "LABEL_PREFIX";
                   "backupDir" := env !! "BACKUP_DIR";
                   "cronSchedule" := env !! "CRON_SCHEDULE" ]}).

(** [this.moduleOptions.key]: [undefined] when the property is absent or
    holds [undefined]. *)
Definition get (options : PartialOptions) (key : string) : option string :=
  options !! key ≫= id.

End Options.

Import Options.

(** ** Concrete inputs used by the examples below *)
Module Samples.

Definition mysql : ContainerInfo := {|
  Id := "3f2a";
  Names := ["/mysql-app"];
  Labels := Some (list_to_map
    [("docker-backup-tool.backup", "true");
     ("docker-backup-tool.command", "mysqldump --all-databases")]);
|}.

Definition with_retention (v : string) : ContainerInfo := {|
  Id := "3f2a";
  Names := ["/mysql-app"];
  Labels := Some (list_to_map
    [("docker-backup-tool.backup", "true");
     ("docker-backup-tool.command", "mysqldump --all-databases");
     ("docker-backup-tool.retention", v)]);
|}.

Definition no_command : ContainerInfo := {|
  Id := "77c0";
  Names := ["/redis"];
  Labels := Some (list_to_map [("docker-backup-tool.backup", "true")]);
|}.

Definition quiet : ExecBehaviour :=
  {| createErr := NoErr; startErr := NoErr; chunks := [ChunkString "done"] |}.

Definition noisy : ExecBehaviour :=
  {| createErr := NoErr; startErr := NoErr;
     chunks := [ChunkString "0 errors, "; ChunkString "all good"] |}.

Definition binary : ExecBehaviour :=
  {| createErr := NoErr; startErr := NoErr;
     chunks := [ChunkBuffer "Error: disk full"] |}.

Definition file (n : string) (t : Z) (r : bool) : DirEntry :=
  {| name := n; mtime := t; removable := r; statable := true |}.

(** Three artifacts, newest first in modification time. *)
Definition three : Dir :=
  [file "db_2024-01-02" 20 true; file "db_2024-01-03" 30 true;
   file "db_2024-01-01" 10 true].

(** The same artifacts together with an entry that lacks the separator. *)
Definition mixed : Dir :=
  [file "db_2024-01-02" 20 true; file "README" 5 true;
   file "db_2024-01-03" 30 true; file "db_2024-01-01" 10 true].

(** Three artifacts and a link named like one whose target is gone. *)
Definition dangling : Dir :=
  [file "db_2024-01-02" 20 true; file "db_2024-01-03" 30 true;
   {| name := "db_latest"; mtime := 0; removable := true; statable := false |};
   file "db_2024-01-01" 10 true].

(** A stream that mixes strings and buffers. *)
Definition interleaved : ExecBehaviour :=
  {| createErr := NoErr; startErr := NoErr;
     chunks := [ChunkString "dump "; ChunkBuffer "Error: raw bytes";
                ChunkString "finished"] |}.

(** The middle artifact cannot be removed. *)
Definition stuck : Dir :=
  [file "db_2024-01-02" 20 false; file "db_2024-01-03" 30 true;
   file "db_2024-01-01" 10 true].

(** A cooperative environment: every command prints "done", the copy
    leaves the host file system as it is, and two containers are listed. *)
Definition calm : World := {|
  labelPrefix := "docker-backup-tool";
  backupDir := "/backups";
  now := λ _, "2024-01-03T02:00:00.000Z";
  ensureDir_err := λ _ _, None;
  docker_exec := λ _ _ _, quiet;
  child_process := λ h _, Normal (fs h);
  listContainers := λ _, Normal [no_command; mysql];
|}.

(** The same environment, except that the copy out of the container fails. *)
Definition broken_copy : World := {|
  labelPrefix := "docker-backup-tool";
  backupDir := "/backups";
  now := λ _, "2024-01-03T02:00:00.000Z";
  ensureDir_err := λ _ _, None;
  docker_exec := λ _ _ _, quiet;
  child_process := λ _ _, Throw "Command failed: docker cp";
  listContainers := λ _, Normal [no_command; mysql];
|}.

Definition mysql_config : BackupConfig := {|
  containerId := "3f2a"; containerName := "mysql-app"; enabled := true;
  command := Some "mysqldump --all-databases"; location := "/tmp/backup";
  schedule := None; retention := Num 2;
  preCommand := Some "mkdir -p /tmp/backup"; postCommand := Some "rm -rf /tmp/backup/*";
|}.

Definition fresh : Host := {| trace := []; fs := ∅ |}.

(** The environment in which the runtime cannot be queried. *)
Definition unreachable : World := {|
  labelPrefix := "docker-backup-tool";
  backupDir := "/backups";
  now := λ _, "2024-01-03T02:00:00.000Z";
  ensureDir_err := λ _ _, None;
  docker_exec := λ _ _ _, quiet;
  child_process := λ h _, Normal (fs h);
  listContainers := λ _, Throw "connect ENOENT /var/run/docker.sock";
|}.

(** The environment in which no host directory can be created. *)
Definition read_only : World := {|
  labelPrefix := "docker-backup-tool";
  backupDir := "/backups";
  now := λ _, "2024-01-03T02:00:00.000Z";
  ensureDir_err := λ _ _, Some "EROFS: read-only file system, mkdir";
  docker_exec := λ _ _ _, quiet;
  child_process := λ h _, Normal (fs h);
  listContainers := λ _, Normal [mysql; no_command];
|}.

Definition split_marker : ExecBehaviour :=
  {| createErr := NoErr; startErr := NoErr;
     chunks := [ChunkString "dump started"; ChunkBuffer "raw";
                ChunkString "mysqldump: Got error: 1045"] |}.

End Samples.

(** * Vocabulary of the properties *)

Definition is_substring (needle s : string) : Prop :=
  ∃ pre post, s = pre +:+ needle +:+ post.

Definition session_established (b : ExecBehaviour) : Prop :=
  (∀ msg, createErr b ≠ ErrInstance msg) ∧ (∀ msg, startErr b ≠ ErrInstance msg).

(** The order the comparator induces: [a] may stay in front of [b]. *)
Definition keeps_before {A : Type} (cmp : A → A → Z) (a b : A) : Prop :=
  cmp a b ≤ 0.

Definition newer_first (a b : Candidate) : Prop := cmtime b ≤ cmtime a.

Definition to_cand (e : DirEntry) : Candidate :=
  {| cname := name e; cmtime := mtime e |}.

(** The candidates of a listing, in listing order. *)
Definition candidates (d : Dir) : list Candidate :=
  to_cand <$> filter (λ e, is_candidate (name e) = true) d.

(** A real directory lists every name once. *)
Definition well_formed (d : Dir) : Prop := NoDup (readdir d).

(** Every candidate of the listing can be stat'ed. *)
Definition stat_ok (d : Dir) : Prop :=
  Forall (λ e, statable e = true) (filter (λ e, is_candidate (name e) = true) d).

(** The prune as the specification words it: with more than [R] candidates,
    what remains is every non-candidate and the first [R] of the candidates
    sorted newest first. *)
Definition keeps_exactly_newest (d : Dir) (R : Z) : Prop :=
  let files := sort by_mtime_desc (candidates d) in
  R < Z.of_nat (length files) →
  ∀ e, e ∈ remaining (prune d (Num R))
       ↔ e ∈ d ∧ (¬ is_substring "_" (name e)
                  ∨ to_cand e ∈ take (Z.to_nat R) files).

(** The text of the string chunks of a stream, in order of arrival. *)
Definition string_contents (cs : list chunk) : list string :=
  omap (λ c, match c with
             | ChunkString s => Some s
             | ChunkBuffer _ => None
             end) cs.

Definition concat_strings (l : list string) : string :=
  foldr String.append EmptyString l.

(** [fs.remove] on the candidate will not fail in directory [d]. *)
Definition deletable (d : Dir) (c : Candidate) : bool :=
  match lookup_entry (cname c) d with
  | Some e => removable e
  | None => true
  end.

(** The candidates the loop gets through: those in front of the first
    failing one. *)
Fixpoint deleted_prefix (d : Dir) (files : list Candidate) : list Candidate :=
  match files with
  | [] => []
  | c :: rest => if deletable d c then c :: deleted_prefix d rest else []
  end.

(** Retention values that are usable as a count: [NaN] (never exceeded) or a
    non-negative integer. *)
Definition not_negative (r : num) : Prop :=
  match r with
  | NaN => True
  | Num z => 0 ≤ z
  end.

Section PipelineVocabulary.
Context (W : World).

(** The steps [executeBackup] plans between [ensureDir] and the cleanup,
    as the events they issue. *)
Definition plan (config : BackupConfig) (ts : string) : list event :=
  (if truthy (preCommand config)
   then [EvExec (containerId config) (default EmptyString (preCommand config))] else [])
  ++ (if truthy (command config)
      then [EvExec (containerId config) (fullCommand config ts)] else [])
  ++ [EvExecAsync (copyCommand W config ts)]
  ++ (if truthy (postCommand config)
      then [EvExec (containerId config) (default EmptyString (postCommand config))] else []).

(** The operation behind a step event. *)
Definition step (ev : event) : M () :=
  match ev with
  | EvExec id command => execIn W id command;; mret ()
  | EvExecAsync command => execAsync W command
  | _ => mret ()
  end.

Definition is_step (ev : event) : Prop :=
  match ev with
  | EvExec _ _ | EvExecAsync _ => True
  | _ => False
  end.

(** [Runs steps h h']: issued in order from host state [h], every step
    succeeds, and the host ends in [h']. *)
Inductive Runs : list event → Host → Host → Prop :=
| Runs_nil h : Runs [] h h
| Runs_cons ev steps h h1 h2 :
    step ev h = (Normal (), h1) → Runs steps h1 h2 → Runs (ev :: steps) h h2.

(** [Fails ev h h']: issued in host state [h], the step fails and leaves
    the host in [h']. *)
Definition Fails (ev : event) (h h' : Host) : Prop :=
  ∃ msg, step ev h = (Throw msg, h').

Fixpoint run_all (steps : list event) : M () :=
  match steps with
  | [] => mret ()
  | ev :: rest => step ev;; run_all rest
  end.

(** The host state in which the cleanup leaves the pipeline. *)
Definition after_cleanup (config : BackupConfig) (h : Host) : Host :=
  with_fs (cleanupOldBackups (hostBackupPath W config) (retention config) (fs h))
          (record (EvCleanup (hostBackupPath W config) (retention config)) h).

(** What a call of [executeBackup] adds to the trace: its own call event,
    the [ensureDir] of its host directory, and then only steps and cleanup. *)
Definition is_inner (ev : event) : Prop :=
  match ev with
  | EvExecuteBackup _ | EvEnsureDir _ => False
  | _ => True
  end.

End PipelineVocabulary.

(** The names the loop of [runBackups] reports on: those of the listed
    containers that pass both guards, in listing order. *)
Definition eligible_names (prefix : string) (containers : list ContainerInfo)
  : list string :=
  omap (λ c, match extractBackupConfig prefix c with
             | Normal config =>
                 if eligible config then Some (containerName config) else None
             | Throw _ => None
             end) containers.


(** * Properties *)

(** ** Strings *)

Lemma append_cons (c : ascii) (s t : string) :
  String c s +:+ t = String c (s +:+ t).
Proof. reflexivity. Qed.

Lemma append_nil_l (s : string) : EmptyString +:+ s = s.
Proof. reflexivity. Qed.

Lemma append_nil_r (s : string) : s +:+ EmptyString = s.
Proof. induction s as [|c s IH]; [done|]. by rewrite append_cons, IH. Qed.

Lemma append_assoc (s t u : string) : (s +:+ t) +:+ u = s +:+ (t +:+ u).
Proof. induction s as [|c s IH]; [done|]. by rewrite !append_cons, IH. Qed.

Lemma prefix_spec (p s : string) :
  String.prefix p s = true ↔ ∃ post, s = p +:+ post.
Proof.
  revert s. induction p as [|a p IH]; intros s; simpl.
  - split; [intros _; by exists s | by destruct s].
  - destruct s as [|b s]; simpl.
    + split; [done | intros [post H]; discriminate].
    + destruct (Ascii.ascii_dec a b) as [->|Hne].
      * rewrite IH. split; intros [post H]; exists post;
          rewrite append_cons in *; congruence.
      * split; [done | intros [post H]; rewrite append_cons in H; congruence].
Qed.

Lemma includes_spec (needle s : string) :
  includes needle s = true ↔ is_substring needle s.
Proof.
  induction s as [|c s IH].
  - change (includes needle EmptyString) with (String.prefix needle EmptyString || false).
    rewrite orb_false_r, prefix_spec. split.
    + intros [post H]. by exists EmptyString, post.
    + intros [pre [post H]]. destruct pre; [by exists post|done].
  - change (includes needle (String c s))
      with (String.prefix needle (String c s) || includes needle s).
    rewrite orb_true_iff, prefix_spec, IH. split.
    + intros [[post H]|[pre [post H]]].
      * by exists EmptyString, post.
      * exists (String c pre), post. by rewrite append_cons, H.
    + intros [pre [post H]]. destruct pre as [|c' pre].
      * left. by exists post.
      * right. exists pre, post. rewrite append_cons in H. congruence.
Qed.

Lemma includes_false_spec (needle s : string) :
  includes needle s = false ↔ ¬ is_substring needle s.
Proof. rewrite <- includes_spec. by destruct (includes needle s). Qed.

(** ** execInContainer *)

Lemma execInContainer_established (b : ExecBehaviour) :
  session_established b →
  execInContainer b = on_end (accumulate (chunks b)).
Proof.
  intros [Hc Hs]. unfold execInContainer.
  destruct (createErr b); [|by destruct (Hc msg)|];
    (destruct (startErr b); [done|by destruct (Hs msg)|done]).
Qed.

Lemma accumulate_from (acc : string) (cs : list chunk) :
  foldl on_data acc cs = acc +:+ accumulate cs.
Proof.
  unfold accumulate. revert acc.
  induction cs as [|c cs IH]; intros acc; simpl.
  - by rewrite append_nil_r.
  - rewrite IH, (IH (on_data EmptyString c)). destruct c; simpl; [|done].
    by rewrite append_nil_l, append_assoc.
Qed.

Lemma accumulate_strings_only (cs : list chunk) :
  accumulate cs = accumulate (filter (λ c, is_string c = true) cs).
Proof.
  induction cs as [|c cs IH]; [done|].
  destruct c as [s|content].
  - rewrite filter_cons_True by done. unfold accumulate. simpl.
    rewrite !(accumulate_from s). by rewrite IH.
  - rewrite filter_cons_False by done. apply IH.
Qed.

(** C6: once the exec session is established and its stream has ended,
    [execInContainer] rejects exactly when the accumulated output contains
    the substring "error" or "Error", the rejection carries that output, and
    otherwise the call resolves with the output. *)
Theorem execInContainer_content_based (b : ExecBehaviour) :
  session_established b →
  let output := accumulate (chunks b) in
  ((∃ msg, execInContainer b = Rejected msg)
     ↔ is_substring "error" output ∨ is_substring "Error" output)
  ∧ (is_substring "error" output ∨ is_substring "Error" output →
     execInContainer b = Rejected output)
  ∧ (¬ is_substring "error" output → ¬ is_substring "Error" output →
     execInContainer b = Resolved output).
Proof.
  intros Hs output. rewrite (execInContainer_established b Hs).
  fold output. unfold on_end.
  pose proof (includes_spec "Error" output) as HE.
  pose proof (includes_spec "error" output) as He.
  destruct (includes "Error" output), (includes "error" output); simpl.
  1-3: split; [split; [intros _|]; eauto; tauto | split; [done | tauto]].
  assert (Hno : ¬ (is_substring "error" output ∨ is_substring "Error" output)).
  { intros [H|H]; [apply He in H | apply HE in H]; discriminate. }
  split; [split; [intros [msg H]; discriminate | tauto] | split; [tauto | done]].
Qed.

Lemma execInContainer_content_based_witness :
  (∃ msg, execInContainer Samples.noisy = Rejected msg)
  ∧ execInContainer Samples.quiet = Resolved "done".
Proof.
  assert (Hq : session_established Samples.quiet) by (split; intros; discriminate).
  assert (Hn : session_established Samples.noisy) by (split; intros; discriminate).
  split.
  - apply (execInContainer_content_based Samples.noisy Hn).
    left. apply includes_spec. reflexivity.
  - apply (execInContainer_content_based Samples.quiet Hq);
      apply includes_false_spec; reflexivity.
Defined.

Lemma accumulate_cons (c : chunk) (cs : list chunk) :
  accumulate (c :: cs) = on_data EmptyString c +:+ accumulate cs.
Proof. unfold accumulate at 1. simpl. apply accumulate_from. Qed.

Lemma accumulate_contents (cs : list chunk) :
  accumulate cs = concat_strings (string_contents cs).
Proof.
  induction cs as [|c cs IH]; [done|].
  rewrite accumulate_cons, IH. by destruct c.
Qed.

(** C10: for every stream, the accumulated output is the text of its string
    chunks, in order, and nothing else: a chunk of another type contributes
    nothing wherever it arrives.  When the stream emits no string chunk at
    all the output is empty and, once the session is established, the call
    resolves, whatever the chunks contain. *)
Theorem execInContainer_discards_non_strings (b : ExecBehaviour) :
  accumulate (chunks b) = concat_strings (string_contents (chunks b))
  ∧ (∀ front content back,
       chunks b = front ++ ChunkBuffer content :: back →
       accumulate (chunks b) = accumulate (front ++ back))
  ∧ (Forall (λ c, is_string c = false) (chunks b) →
     accumulate (chunks b) = EmptyString
     ∧ (session_established b → execInContainer b = Resolved EmptyString)).
Proof.
  split; [apply accumulate_contents|]. split.
  - intros front content back ->. rewrite !accumulate_contents.
    unfold string_contents. by rewrite !omap_app.
  - intros Hall.
    assert (Hempty : accumulate (chunks b) = EmptyString).
    { rewrite accumulate_contents.
      induction Hall as [|c cs Hc _ IH]; [done|]. by destruct c. }
    split; [done|]. intros Hs.
    rewrite (execInContainer_established b Hs), Hempty. reflexivity.
Qed.

Lemma execInContainer_discards_non_strings_witness :
  accumulate (chunks Samples.interleaved) = "dump finished"
  ∧ execInContainer Samples.binary = Resolved EmptyString.
Proof.
  split.
  - rewrite (proj1 (execInContainer_discards_non_strings Samples.interleaved)).
    reflexivity.
  - apply (proj2 (proj2 (execInContainer_discards_non_strings Samples.binary))).
    + repeat constructor.
    + split; intros; discriminate.
Defined.

(** ** extractBackupConfig *)

Example parseInt_samples :
  parseInt (Some "7") = Num 7 ∧ parseInt (Some "  -12px") = Num (-12) ∧
  parseInt (Some "0x1F") = Num 31 ∧ parseInt (Some "abc") = NaN ∧
  parseInt (Some EmptyString) = NaN ∧ parseInt None = NaN ∧ parseInt (Some "0") = Num 0.
Proof. repeat split; reflexivity. Qed.

Example extract_mysql :
  extractBackupConfig "docker-backup-tool" Samples.mysql =
  Normal {| containerId := "3f2a"; containerName := "mysql-app";
            enabled := true; command := Some "mysqldump --all-databases";
            location := "/tmp/backup"; schedule := None; retention := NaN;
            preCommand := None; postCommand := None |}.
Proof. vm_compute. reflexivity. Qed.

(** The retention of an extracted configuration is what [parseInt] makes of
    the label: the [?? 7] never applies. *)
Lemma extract_retention (prefix : string) (c : ContainerInfo) (cfg : BackupConfig) :
  extractBackupConfig prefix c = Normal cfg →
  retention cfg = parseInt (label prefix c "retention").
Proof.
  unfold extractBackupConfig. destruct (Names c); [done|].
  intros [= <-]. reflexivity.
Qed.

Lemma extract_retention_missing (prefix : string) (c : ContainerInfo) (cfg : BackupConfig) :
  extractBackupConfig prefix c = Normal cfg →
  label prefix c "retention" = None →
  retention cfg = NaN.
Proof. intros H Hl. by rewrite (extract_retention _ _ _ H), Hl. Qed.

(** C1: with the retention label missing, or set to the non-numeric "abc",
    the extracted retention is [NaN], not the documented default 7. *)
Theorem extract_retention_default_is_NaN :
  (∃ cfg, extractBackupConfig "docker-backup-tool" Samples.mysql = Normal cfg
          ∧ retention cfg = NaN ∧ retention cfg ≠ Num 7)
  ∧ (∃ cfg, extractBackupConfig "docker-backup-tool"
              (Samples.with_retention "abc") = Normal cfg
            ∧ retention cfg = NaN ∧ retention cfg ≠ Num 7).
Proof. split; (eexists; split; [vm_compute; reflexivity | split; done]). Qed.

(** C5, as stated, fails: the label value "0" is extracted as retention 0. *)
Lemma extract_retention_ge_one_counterexample :
  ¬ (∀ prefix c cfg,
       extractBackupConfig prefix c = Normal cfg → ge_one (retention cfg) = true).
Proof.
  intros H.
  specialize (H "docker-backup-tool" (Samples.with_retention "0")).
  vm_compute in H. specialize (H _ eq_refl). discriminate.
Qed.

(** C5, amended: extraction passes the parsed label through unchanged, so
    the extracted retention is at least 1 exactly when the label parses to
    an integer that is at least 1. *)
Theorem extract_retention_unchecked
    (prefix : string) (c : ContainerInfo) (cfg : BackupConfig) (n : Z) :
  extractBackupConfig prefix c = Normal cfg →
  parseInt (label prefix c "retention") = Num n →
  retention cfg = Num n ∧ (ge_one (retention cfg) = true ↔ 1 ≤ n).
Proof.
  intros H Hn. rewrite (extract_retention _ _ _ H), Hn. split; [done|].
  simpl. apply Z.leb_le.
Qed.

Lemma extract_retention_unchecked_witness :
  ∃ cfg, extractBackupConfig "docker-backup-tool" (Samples.with_retention "3")
         = Normal cfg
         ∧ retention cfg = Num 3 ∧ (ge_one (retention cfg) = true ↔ 1 ≤ 3).
Proof.
  eexists. split; [vm_compute; reflexivity|].
  apply (extract_retention_unchecked "docker-backup-tool"
           (Samples.with_retention "3")); vm_compute; reflexivity.
Defined.

(** ** Sorting *)

Section Sorting.
Context {A : Type} (cmp : A → A → Z).

Lemma sort_insert_perm (x : A) (l : list A) : sort_insert cmp x l ≡ₚ x :: l.
Proof.
  induction l as [|y l IH]; simpl; [done|].
  destruct (cmp x y <=? 0); [done|]. rewrite IH. apply Permutation_swap.
Qed.

Lemma sort_perm (l : list A) : sort cmp l ≡ₚ l.
Proof.
  induction l as [|x l IH]; simpl; [done|]. by rewrite sort_insert_perm, IH.
Qed.

Lemma sort_length (l : list A) : length (sort cmp l) = length l.
Proof. by rewrite sort_perm. Qed.

Lemma elem_of_sort (x : A) (l : list A) : x ∈ sort cmp l ↔ x ∈ l.
Proof. by rewrite sort_perm. Qed.

Hypothesis cmp_trans : ∀ a b c, cmp a b ≤ 0 → cmp b c ≤ 0 → cmp a c ≤ 0.
Hypothesis cmp_total : ∀ a b, 0 < cmp a b → cmp b a ≤ 0.

Lemma sort_insert_sorted (x : A) (l : list A) :
  StronglySorted (keeps_before cmp) l → StronglySorted (keeps_before cmp) (sort_insert cmp x l).
Proof.
  induction 1 as [|y l Hl IH Hy]; simpl.
  - repeat constructor.
  - destruct (Z.leb_spec (cmp x y) 0) as [Hle|Hgt].
    + constructor; [by constructor|].
      constructor; [done|].
      eapply Forall_impl; [exact Hy|]. intros z Hz. by eapply cmp_trans.
    + constructor; [done|].
      rewrite sort_insert_perm. constructor; [|done].
      by apply cmp_total.
Qed.

Lemma sort_sorted (l : list A) : StronglySorted (keeps_before cmp) (sort cmp l).
Proof.
  induction l as [|x l IH]; simpl; [constructor|]. by apply sort_insert_sorted.
Qed.

(** Stability: sorting commutes with filtering. *)
Lemma sort_insert_filter (P : A → Prop) `{!∀ a, Decision (P a)} (x : A) (l : list A) :
  StronglySorted (keeps_before cmp) l →
  filter P (sort_insert cmp x l)
  = if decide (P x) then sort_insert cmp x (filter P l) else filter P l.
Proof.
  induction 1 as [|y l Hl IH Hy]; simpl.
  - rewrite filter_cons, filter_nil. by destruct (decide (P x)).
  - destruct (Z.leb_spec (cmp x y) 0) as [Hle|Hgt].
    + rewrite filter_cons. destruct (decide (P x)) as [Hx|Hx]; [|done].
      rewrite filter_cons. destruct (decide (P y)) as [Hpy|Hpy].
      * simpl. by destruct (Z.leb_spec (cmp x y) 0); [|lia].
      * (* every later element is also kept behind x *)
        assert (Hall : Forall (λ z, cmp x z ≤ 0) (filter P l)).
        { apply Forall_forall. intros z Hz.
          apply list_elem_of_filter in Hz as [_ Hz].
          rewrite Forall_forall in Hy. eapply cmp_trans; [exact Hle|by apply Hy]. }
        destruct Hall as [|z zs Hz _]; simpl; [done|].
        by destruct (Z.leb_spec (cmp x z) 0); [|lia].
    + rewrite (filter_cons _ y), IH. rewrite (filter_cons _ y).
      destruct (decide (P y)) as [Hpy|Hpy]; destruct (decide (P x)); simpl; try done.
      by destruct (Z.leb_spec (cmp x y) 0); [lia|].
Qed.

Lemma sort_filter (P : A → Prop) `{!∀ a, Decision (P a)} (l : list A) :
  sort cmp (filter P l) = filter P (sort cmp l).
Proof.
  induction l as [|x l IH]; simpl; [done|].
  rewrite sort_insert_filter by apply sort_sorted.
  rewrite filter_cons. destruct (decide (P x)); simpl; by rewrite IH.
Qed.

End Sorting.

Lemma sort_by_mtime_sorted (l : list Candidate) :
  StronglySorted newer_first (sort by_mtime_desc l).
Proof.
  assert (H : StronglySorted (keeps_before by_mtime_desc) (sort by_mtime_desc l)).
  { apply sort_sorted; unfold by_mtime_desc; intros; lia. }
  induction H as [|x xs _ IH Hx]; constructor; [done|].
  eapply Forall_impl; [exact Hx|].
  unfold keeps_before, by_mtime_desc, newer_first. intros; lia.
Qed.

Lemma sort_by_mtime_filter (P : Candidate → Prop) `{!∀ a, Decision (P a)}
    (l : list Candidate) :
  sort by_mtime_desc (filter P l) = filter P (sort by_mtime_desc l).
Proof. apply sort_filter; unfold by_mtime_desc; intros; lia. Qed.

(** ** Directory listings *)

Lemma lookup_entry_cons (file : string) (e : DirEntry) (d : Dir) :
  lookup_entry file (e :: d)
  = if decide (name e = file) then Some e else lookup_entry file d.
Proof.
  unfold lookup_entry. simpl. destruct (decide (name e = file)); [done|].
  by destruct (list_find _ d) as [[i x]|].
Qed.

Lemma lookup_entry_None (file : string) (d : Dir) :
  lookup_entry file d = None ↔ ∀ e, e ∈ d → name e ≠ file.
Proof.
  induction d as [|e d IH].
  - split; [intros _ e He; by apply elem_of_nil in He | done].
  - rewrite lookup_entry_cons. destruct (decide (name e = file)) as [Heq|Hne].
    + split; [done|]. intros H. destruct (H e); [left | done].
    + rewrite IH. split.
      * intros H e' [->|He']%elem_of_cons; auto.
      * intros H e' He'. apply H. by right.
Qed.

Lemma lookup_entry_Some (file : string) (d : Dir) (e : DirEntry) :
  lookup_entry file d = Some e → e ∈ d ∧ name e = file.
Proof.
  induction d as [|e' d IH]; [done|].
  rewrite lookup_entry_cons. destruct (decide (name e' = file)) as [Heq|Hne].
  - intros [= <-]. split; [left | done].
  - intros H. destruct (IH H). split; [by right | done].
Qed.

Lemma lookup_entry_self (d : Dir) (e : DirEntry) :
  well_formed d → e ∈ d → lookup_entry (name e) d = Some e.
Proof.
  unfold well_formed, readdir. induction d as [|e' d IH]; intros Hnd He.
  - by apply elem_of_nil in He.
  - rewrite fmap_cons in Hnd. apply NoDup_cons in Hnd as [Hfresh Hnd].
    rewrite lookup_entry_cons. apply elem_of_cons in He as [->|He].
    + by rewrite decide_True.
    + rewrite decide_False; [by apply IH|].
      intros Heq. apply Hfresh. rewrite Heq. by apply list_elem_of_fmap_2.
Qed.

Lemma lookup_entry_filter (ns : list string) (file : string) (d : Dir) :
  lookup_entry file (filter (λ e, name e ∉ ns) d)
  = if decide (file ∈ ns) then None else lookup_entry file d.
Proof.
  induction d as [|e d IH].
  - by destruct (decide (file ∈ ns)).
  - rewrite filter_cons. destruct (decide (name e ∉ ns)) as [Hin|Hin].
    + rewrite !lookup_entry_cons, IH.
      destruct (decide (name e = file)) as [<-|Hne]; [|done].
      by rewrite decide_False.
    + rewrite IH, lookup_entry_cons.
      destruct (decide (file ∈ ns)) as [|Hfile]; [done|].
      rewrite decide_False; [done|]. intros <-. by apply Hin.
Qed.

Lemma filter_names_well_formed (ns : list string) (d : Dir) :
  well_formed d → well_formed (filter (λ e, name e ∉ ns) d).
Proof.
  unfold well_formed, readdir. intros H.
  eapply sublist_NoDup; [exact H|apply fmap_sublist, sublist_filter].
Qed.

Lemma candidates_filter (ns : list string) (d : Dir) :
  candidates (filter (λ e, name e ∉ ns) d)
  = filter (λ c, cname c ∉ ns) (candidates d).
Proof.
  unfold candidates. induction d as [|e d IH]; [done|].
  rewrite (filter_cons _ e).
  destruct (decide (name e ∉ ns)) as [Hin|Hin];
    rewrite !filter_cons; destruct (decide (is_candidate (name e) = true));
    rewrite ?fmap_cons, ?filter_cons; simpl;
    try (rewrite decide_True by done); try (rewrite decide_False by done);
    by rewrite IH.
Qed.

Lemma candidates_names_NoDup (d : Dir) :
  well_formed d → NoDup (cname <$> candidates d).
Proof.
  unfold well_formed, readdir, candidates. intros H.
  rewrite <- list_fmap_compose.
  change (cname ∘ to_cand) with name.
  eapply sublist_NoDup; [exact H|apply fmap_sublist, sublist_filter].
Qed.

Lemma elem_of_candidates (d : Dir) (c : Candidate) :
  c ∈ candidates d ↔ ∃ e, e ∈ d ∧ c = to_cand e ∧ is_substring "_" (name e).
Proof.
  unfold candidates. rewrite list_elem_of_fmap. split.
  - intros [e [-> [He Hin]%list_elem_of_filter]]. exists e.
    split; [done|]. split; [done|]. by apply includes_spec.
  - intros [e [Hin [-> He]]]. exists e. split; [done|].
    apply list_elem_of_filter. split; [|done]. by apply includes_spec.
Qed.

Lemma readdir_filter (d : Dir) :
  filter (λ f, is_candidate f = true) (readdir d)
  = readdir (filter (λ e, is_candidate (name e) = true) d).
Proof.
  unfold readdir. induction d as [|e d IH]; [done|].
  rewrite fmap_cons, !filter_cons.
  destruct (decide (is_candidate (name e) = true)); rewrite IH; done.
Qed.

Lemma statSync_listed (d : Dir) (e : DirEntry) :
  well_formed d → e ∈ d →
  statSync d (name e) = if statable e then Some (to_cand e) else None.
Proof.
  intros Hwf He. unfold statSync. by rewrite (lookup_entry_self d e Hwf He).
Qed.

(** The [map] over listed names succeeds exactly when every [statSync]
    does. *)
Lemma mapM_statSync (d l : Dir) :
  well_formed d → (∀ e, e ∈ l → e ∈ d) →
  mapM (statSync d) (readdir l)
  = if decide (Forall (λ e, statable e = true) l)
    then Some (to_cand <$> l) else None.
Proof.
  intros Hwf. induction l as [|e l IH]; intros Hsub; [done|].
  unfold readdir. rewrite fmap_cons. simpl.
  rewrite (statSync_listed d e Hwf) by (apply Hsub; left).
  unfold readdir in IH. rewrite IH by (intros e' He'; apply Hsub; by right).
  destruct (statable e) eqn:Hst; simpl.
  - destruct (decide (Forall _ l)) as [Hl|Hl]; simpl.
    + by rewrite decide_True by by constructor.
    + rewrite decide_False; [done|]. by intros [_ ?]%Forall_cons.
  - rewrite decide_False; [done|]. intros [? _]%Forall_cons. congruence.
Qed.

Lemma backupFiles_decide (d : Dir) :
  well_formed d →
  backupFiles d
  = if decide (stat_ok d) then Some (sort by_mtime_desc (candidates d)) else None.
Proof.
  intros Hwf. unfold backupFiles, candidates, stat_ok.
  rewrite readdir_filter, (mapM_statSync d _ Hwf).
  - by destruct (decide _).
  - intros e He. by apply list_elem_of_filter in He as [_ He].
Qed.

(** When every candidate can be stat'ed, the candidate array is the sorted
    list of candidates. *)
Lemma backupFiles_well_formed (d : Dir) :
  well_formed d → stat_ok d →
  backupFiles d = Some (sort by_mtime_desc (candidates d)).
Proof. intros Hwf Hst. by rewrite (backupFiles_decide d Hwf), decide_True. Qed.

Lemma backupFiles_inv (d : Dir) (files : list Candidate) :
  well_formed d → backupFiles d = Some files →
  stat_ok d ∧ files = sort by_mtime_desc (candidates d).
Proof.
  intros Hwf. rewrite (backupFiles_decide d Hwf).
  destruct (decide (stat_ok d)); [|done]. by intros [= <-].
Qed.

Lemma prune_unreadable (d : Dir) (retention : num) :
  backupFiles d = None → prune d retention = {| remaining := d; attempted := [] |}.
Proof. intros H. unfold prune. by rewrite H. Qed.

Lemma stat_ok_filter (ns : list string) (d : Dir) :
  stat_ok d → stat_ok (filter (λ e, name e ∉ ns) d).
Proof.
  unfold stat_ok. rewrite !Forall_forall. intros H e He.
  apply list_elem_of_filter in He as [Hc He].
  apply list_elem_of_filter in He as [_ He].
  apply H. by apply list_elem_of_filter.
Qed.

(** ** The deletion loop *)

Lemma filter_absent_name (file : string) (d : Dir) :
  lookup_entry file d = None → filter (λ e, name e ≠ file) d = d.
Proof.
  rewrite lookup_entry_None. intros H.
  induction d as [|e d IH]; [done|].
  rewrite filter_cons, decide_True by (apply H; left).
  rewrite IH; [done|]. intros e' He'. apply H. by right.
Qed.

Lemma fs_remove_deletable (d : Dir) (c : Candidate) :
  deletable d c = true →
  fs_remove (cname c) d = Normal (filter (λ e, name e ≠ cname c) d).
Proof.
  unfold deletable, fs_remove.
  destruct (lookup_entry (cname c) d) as [e|] eqn:Hl.
  - by intros ->.
  - intros _. by rewrite filter_absent_name.
Qed.

Lemma fs_remove_stuck (d : Dir) (c : Candidate) :
  deletable d c = false → ∃ msg, fs_remove (cname c) d = Throw msg.
Proof.
  unfold deletable, fs_remove.
  destruct (lookup_entry (cname c) d) as [e|]; [|done].
  intros ->. eauto.
Qed.

Lemma lookup_entry_remove (file other : string) (d : Dir) :
  lookup_entry other (filter (λ e, name e ≠ file) d)
  = if decide (other = file) then None else lookup_entry other d.
Proof.
  induction d as [|e d IH].
  - by destruct (decide (other = file)).
  - rewrite filter_cons. destruct (decide (name e ≠ file)) as [Hne|Heq].
    + rewrite !lookup_entry_cons, IH.
      destruct (decide (name e = other)) as [<-|]; [|done].
      by rewrite decide_False.
    + rewrite IH, lookup_entry_cons. apply dec_stable in Heq.
      destruct (decide (other = file)) as [->|Hne]; [done|].
      by rewrite decide_False by congruence.
Qed.

Lemma deletable_after_remove (d : Dir) (c x : Candidate) :
  deletable d c = true →
  deletable (filter (λ e, name e ≠ cname c) d) x = deletable d x.
Proof.
  unfold deletable. intros Hc. rewrite lookup_entry_remove.
  destruct (decide (cname x = cname c)) as [Heq|Hne]; [|done].
  rewrite Heq. by destruct (lookup_entry (cname c) d).
Qed.

Lemma deleted_prefix_after_remove (d : Dir) (c : Candidate) (files : list Candidate) :
  deletable d c = true →
  deleted_prefix (filter (λ e, name e ≠ cname c) d) files = deleted_prefix d files.
Proof.
  intros Hc. induction files as [|x files IH]; [done|].
  simpl. rewrite deletable_after_remove by done.
  destruct (deletable d x); [by rewrite IH | done].
Qed.

Lemma filter_names_cons (file : string) (ns : list string) (d : Dir) :
  filter (λ e, name e ∉ ns) (filter (λ e, name e ≠ file) d)
  = filter (λ e, name e ∉ file :: ns) d.
Proof.
  rewrite list_filter_filter. apply list_filter_iff.
  intros e. rewrite not_elem_of_cons. tauto.
Qed.

Lemma filter_names_nil (d : Dir) : filter (λ e, name e ∉ @nil string) d = d.
Proof.
  induction d as [|e d IH]; [done|].
  rewrite filter_cons, decide_True by apply not_elem_of_nil. by rewrite IH.
Qed.

(** What the deletion loop leaves behind and which removals it attempts. *)
Lemma remove_each_spec (files : list Candidate) (d : Dir) (calls : list string) :
  let gone := deleted_prefix d files in
  (remove_each files d calls).2
  = {| remaining := filter (λ e, name e ∉ cname <$> gone) d;
       attempted := calls ++ (cname <$> take (S (length gone)) files) |}.
Proof.
  revert d calls. induction files as [|c files IH]; intros d calls; simpl.
  - by rewrite filter_names_nil, app_nil_r.
  - destruct (deletable d c) eqn:Hc.
    + rewrite (fs_remove_deletable d c Hc), IH.
      rewrite (deleted_prefix_after_remove d c files Hc), filter_names_cons.
      simpl. by rewrite <- app_assoc.
    + destruct (fs_remove_stuck d c Hc) as [msg ->]. simpl.
      rewrite filter_names_nil. by destruct files.
Qed.

Lemma remove_each_completes (files : list Candidate) (d : Dir) (calls : list string) :
  (remove_each files d calls).1 = Normal () ↔ deleted_prefix d files = files.
Proof.
  revert d calls. induction files as [|c files IH]; intros d calls; simpl; [done|].
  destruct (deletable d c) eqn:Hc.
  - rewrite (fs_remove_deletable d c Hc), IH.
    rewrite (deleted_prefix_after_remove d c files Hc).
    split; [by intros -> | by intros [= ->]].
  - destruct (fs_remove_stuck d c Hc) as [msg ->]. done.
Qed.

(** The prune of a real directory, in closed form. *)
Lemma prune_spec (d : Dir) (retention : num) :
  well_formed d → stat_ok d →
  let files := sort by_mtime_desc (candidates d) in
  let gone := deleted_prefix d (slice retention files) in
  prune d retention
  = if gt_num (Z.of_nat (length files)) retention
    then {| remaining := filter (λ e, name e ∉ cname <$> gone) d;
            attempted := cname <$> take (S (length gone)) (slice retention files) |}
    else {| remaining := d; attempted := [] |}.
Proof.
  intros Hwf Hst files gone. unfold prune.
  rewrite (backupFiles_well_formed d Hwf Hst). fold files.
  destruct (gt_num _ retention); [|done].
  by rewrite remove_each_spec.
Qed.

Lemma deleted_prefix_all (d : Dir) (files : list Candidate) :
  Forall (λ e, removable e = true) d → deleted_prefix d files = files.
Proof.
  intros Hall. induction files as [|c files IH]; [done|].
  simpl. unfold deletable.
  destruct (lookup_entry (cname c) d) as [e|] eqn:Hl.
  - apply lookup_entry_Some in Hl as [He _].
    rewrite Forall_forall in Hall. by rewrite (Hall e He), IH.
  - by rewrite IH.
Qed.

Lemma slice_nonneg {A : Type} (r : Z) (l : list A) :
  0 ≤ r → slice (Num r) l = drop (Z.to_nat r) l.
Proof.
  intros Hr. unfold slice.
  destruct (Z.ltb_spec r 0) as [|_]; [lia|].
  destruct (Z.le_gt_cases r (Z.of_nat (length l))).
  - by rewrite Z.min_l by done.
  - rewrite Z.min_r, Nat2Z.id by lia.
    rewrite !drop_ge; [done| |]; lia.
Qed.

Lemma deleted_prefix_split (d : Dir) (files : list Candidate) :
  ∃ rest, files = deleted_prefix d files ++ rest
          ∧ match rest with
            | [] => True
            | x :: _ => deletable d x = false
            end.
Proof.
  induction files as [|c files [rest [Heq Hrest]]]; simpl.
  - by exists [].
  - destruct (deletable d c) eqn:Hc.
    + exists rest. split; [simpl; congruence | done].
    + by exists (c :: files).
Qed.

Lemma same_name_same_entry (d : Dir) (e e' : DirEntry) :
  well_formed d → e ∈ d → e' ∈ d → name e = name e' → e = e'.
Proof.
  intros Hwf He He' Hn.
  pose proof (lookup_entry_self d e Hwf He) as H.
  rewrite Hn, (lookup_entry_self d e' Hwf He') in H. congruence.
Qed.

Lemma filter_keep_all (ns : list string) (l : list Candidate) :
  (∀ c, c ∈ l → cname c ∉ ns) → filter (λ c, cname c ∉ ns) l = l.
Proof.
  intros H. induction l as [|c l IH]; [done|].
  rewrite filter_cons, decide_True by (apply H; left).
  rewrite IH; [done|]. intros c' Hc'. apply H. by right.
Qed.

Lemma filter_drop_all (ns : list string) (l : list Candidate) :
  (∀ c, c ∈ l → cname c ∈ ns) → filter (λ c, cname c ∉ ns) l = [].
Proof.
  intros H. induction l as [|c l IH]; [done|].
  rewrite filter_cons, decide_False by (intros Hn; apply Hn, H; left).
  apply IH. intros c' Hc'. apply H. by right.
Qed.

Lemma filter_out_middle (front gone back : list Candidate) :
  NoDup (cname <$> (front ++ gone ++ back)) →
  filter (λ c, cname c ∉ cname <$> gone) (front ++ gone ++ back) = front ++ back.
Proof.
  rewrite !fmap_app. intros Hnd.
  apply NoDup_app in Hnd as (_ & Hfront & Hnd).
  apply NoDup_app in Hnd as (_ & Hgone & _).
  rewrite !filter_app.
  rewrite (filter_keep_all _ front), (filter_drop_all _ gone), (filter_keep_all _ back).
  - done.
  - intros c Hc Hin. apply (Hgone (cname c) Hin). by apply list_elem_of_fmap_2.
  - intros c Hc. by apply list_elem_of_fmap_2.
  - intros c Hc Hin. apply (Hfront (cname c)).
    + by apply list_elem_of_fmap_2.
    + apply elem_of_app. by left.
Qed.

(** A second prune of the same directory removes nothing more. *)
Lemma prune_idempotent (d : Dir) (r : num) :
  well_formed d → not_negative r →
  remaining (prune (remaining (prune d r)) r) = remaining (prune d r).
Proof.
  intros Hwf Hr.
  destruct (decide (stat_ok d)) as [Hst|Hst].
  2:{ assert (Hnone : backupFiles d = None).
      { by rewrite (backupFiles_decide d Hwf), decide_False. }
      rewrite (prune_unreadable d r Hnone). simpl.
      by rewrite (prune_unreadable d r Hnone). }
  rewrite (prune_spec d r Hwf Hst).
  set (files := sort by_mtime_desc (candidates d)).
  destruct (gt_num (Z.of_nat (length files)) r) eqn:Hgt; simpl;
    [|by rewrite (prune_spec d r Hwf Hst); fold files; rewrite Hgt].
  destruct r as [|z]; [done|]. simpl in Hr, Hgt. apply Z.ltb_lt in Hgt.
  rewrite slice_nonneg by done.
  set (k := Z.to_nat z).
  destruct (deleted_prefix_split d (drop k files)) as (rest & Hsplit & Hrest).
  set (gone := deleted_prefix d (drop k files)) in *.
  set (d' := filter (λ e, name e ∉ cname <$> gone) d).
  assert (Hwf' : well_formed d') by by apply filter_names_well_formed.
  assert (Hst' : stat_ok d') by by apply stat_ok_filter.
  assert (Hnd : NoDup (cname <$> files)).
  { unfold files. rewrite sort_perm. by apply candidates_names_NoDup. }
  assert (Hfiles : files = take k files ++ gone ++ rest).
  { by rewrite <- Hsplit, take_drop. }
  assert (Hfiles' : sort by_mtime_desc (candidates d') = take k files ++ rest).
  { unfold d'. rewrite candidates_filter, sort_by_mtime_filter. fold files.
    rewrite Hfiles at 1. apply filter_out_middle. by rewrite <- Hfiles. }
  assert (Hk : length (take k files) = k) by (rewrite length_take; lia).
  rewrite (prune_spec d' (Num z) Hwf' Hst'), Hfiles'. simpl.
  rewrite length_app, Hk.
  destruct rest as [|x rest].
  - simpl. by destruct (Z.ltb_spec z (Z.of_nat (k + 0))); [lia|].
  - destruct (Z.ltb_spec z (Z.of_nat (k + length (x :: rest)))); [|done].
    simpl. rewrite slice_nonneg by done. fold k.
    rewrite (drop_app_length' _ _ k (eq_sym Hk)). simpl.
    assert (Hx : deletable d' x = false).
    { rewrite <- Hrest. unfold deletable, d'. rewrite lookup_entry_filter.
      rewrite decide_False; [done|]. intros Hin.
      rewrite Hfiles, !fmap_app in Hnd.
      apply NoDup_app in Hnd as (_ & _ & Hnd).
      apply NoDup_app in Hnd as (_ & Hgone & _).
      apply (Hgone (cname x) Hin). rewrite fmap_cons. left. }
    rewrite Hx. simpl. apply filter_names_nil.
Qed.

(** Which entries survive the removal of the candidates behind index [k]. *)
Lemma survives_iff (d : Dir) (k : nat) (e : DirEntry) :
  well_formed d → e ∈ d →
  let files := sort by_mtime_desc (candidates d) in
  name e ∉ cname <$> drop k files
  ↔ ¬ is_substring "_" (name e) ∨ to_cand e ∈ take k files.
Proof.
  intros Hwf He files.
  assert (Hnd : NoDup (cname <$> files)).
  { unfold files. rewrite sort_perm. by apply candidates_names_NoDup. }
  rewrite <- (take_drop k files), fmap_app in Hnd.
  apply NoDup_app in Hnd as (_ & Hdisj & _).
  split.
  - intros Hout. destruct (includes "_" (name e)) eqn:Hc.
    + right. assert (Hin : to_cand e ∈ files).
      { unfold files. rewrite elem_of_sort, elem_of_candidates.
        exists e. by rewrite <- includes_spec. }
      rewrite <- (take_drop k files) in Hin.
      apply elem_of_app in Hin as [Hin|Hin]; [done|].
      destruct Hout. by apply (list_elem_of_fmap_2 cname) in Hin.
    + left. by apply includes_false_spec.
  - intros [Hnc|Hin] Hdrop.
    + apply list_elem_of_fmap in Hdrop as (c & Hn & Hc).
      assert (Hcf : c ∈ files).
      { rewrite <- (take_drop k files). apply elem_of_app. by right. }
      unfold files in Hcf. rewrite elem_of_sort, elem_of_candidates in Hcf.
      destruct Hcf as (e' & He' & -> & Hsub). simpl in Hn.
      by rewrite (same_name_same_entry d e e' Hwf He He' Hn) in Hnc.
    + apply (Hdisj (name e)); [|done].
      by apply (list_elem_of_fmap_2 cname) in Hin.
Qed.

(** ** cleanupOldBackups *)

Lemma prune_all_removable (d : Dir) (R : Z) :
  well_formed d → stat_ok d → Forall (λ e, removable e = true) d → 0 ≤ R →
  let files := sort by_mtime_desc (candidates d) in
  R < Z.of_nat (length files) →
  prune d (Num R)
  = {| remaining := filter (λ e, name e ∉ cname <$> drop (Z.to_nat R) files) d;
       attempted := cname <$> drop (Z.to_nat R) files |}.
Proof.
  intros Hwf Hst Hall HR files Hlt.
  rewrite (prune_spec d (Num R) Hwf Hst). fold files. simpl.
  destruct (Z.ltb_spec R (Z.of_nat (length files))); [|lia].
  rewrite slice_nonneg, (deleted_prefix_all d _ Hall) by done.
  by rewrite take_ge by lia.
Qed.

Example prune_mixed :
  prune Samples.mixed (Num 2)
  = {| remaining := [Samples.file "db_2024-01-02" 20 true;
                     Samples.file "README" 5 true;
                     Samples.file "db_2024-01-03" 30 true];
       attempted := ["db_2024-01-01"] |}.
Proof. vm_compute. reflexivity. Qed.

(** C4, as stated, fails in three ways.  With retention 1 and an artifact
    that cannot be removed, the oldest artifact stays; with retention -1
    two of three artifacts stay; with retention 1 and a candidate that
    cannot be stat'ed, nothing is deleted at all. *)
Lemma cleanup_prunes_beyond_retention_counterexample :
  ¬ keeps_exactly_newest Samples.stuck 1
  ∧ ¬ keeps_exactly_newest Samples.three (-1)
  ∧ ¬ keeps_exactly_newest Samples.dangling 1.
Proof.
  split; [|split]; intros H.
  - assert (Hlt : 1 < Z.of_nat (length (sort by_mtime_desc (candidates Samples.stuck))))
      by (vm_compute; reflexivity).
    destruct (proj1 (H Hlt (Samples.file "db_2024-01-01" 10 true)))
      as (_ & [Hno|Hin]).
    + vm_compute. do 2 right. left.
    + apply Hno, includes_spec. reflexivity.
    + revert Hin. compute_done.
  - assert (Hlt : -1 < Z.of_nat (length (sort by_mtime_desc (candidates Samples.three))))
      by (vm_compute; reflexivity).
    destruct (proj1 (H Hlt (Samples.file "db_2024-01-03" 30 true)))
      as (_ & [Hno|Hin]).
    + vm_compute. right. left.
    + apply Hno, includes_spec. reflexivity.
    + revert Hin. compute_done.
  - assert (Hlt : 1 < Z.of_nat (length (sort by_mtime_desc (candidates Samples.dangling))))
      by (vm_compute; reflexivity).
    destruct (proj1 (H Hlt (Samples.file "db_2024-01-02" 20 true)))
      as (_ & [Hno|Hin]).
    + vm_compute. left.
    + apply Hno, includes_spec. reflexivity.
    + revert Hin. compute_done.
Qed.

(** C4, amended: in a directory whose candidates can all be stat'ed and
    whose entries can all be removed, and for a retention [R ≥ 0], the
    candidates are exactly the entries whose name contains the separator,
    sorted newest first; when there are more than [R] of them, [fs.remove]
    is called on exactly those behind index [R], and what remains is every
    non-candidate together with the first [R] candidates. *)
Theorem cleanup_prunes_beyond_retention (d : Dir) (R : Z) :
  well_formed d → stat_ok d → Forall (λ e, removable e = true) d → 0 ≤ R →
  ∃ files,
    backupFiles d = Some files
    ∧ (∀ c, c ∈ files ↔ ∃ e, e ∈ d ∧ c = to_cand e ∧ is_substring "_" (name e))
    ∧ StronglySorted newer_first files
    ∧ (R < Z.of_nat (length files) →
       attempted (prune d (Num R)) = cname <$> drop (Z.to_nat R) files
       ∧ remaining (prune d (Num R)) `sublist_of` d
       ∧ ∀ e, e ∈ remaining (prune d (Num R))
              ↔ e ∈ d ∧ (¬ is_substring "_" (name e)
                         ∨ to_cand e ∈ take (Z.to_nat R) files)).
Proof.
  intros Hwf Hst Hall HR. exists (sort by_mtime_desc (candidates d)).
  split; [by apply backupFiles_well_formed|].
  split; [intros c; by rewrite elem_of_sort, elem_of_candidates|].
  split; [apply sort_by_mtime_sorted|].
  intros Hlt. rewrite (prune_all_removable d R Hwf Hst Hall HR Hlt). simpl.
  split; [done|]. split; [apply sublist_filter|].
  intros e. rewrite list_elem_of_filter. split.
  - intros [Hout He]. split; [done|]. by apply (survives_iff d _ e Hwf He).
  - intros [He Hkeep]. split; [|done]. by apply (survives_iff d _ e Hwf He).
Qed.

Lemma cleanup_prunes_beyond_retention_witness :
  ∃ files,
    backupFiles Samples.mixed = Some files
    ∧ (∀ c, c ∈ files ↔ ∃ e, e ∈ Samples.mixed ∧ c = to_cand e
                              ∧ is_substring "_" (name e))
    ∧ StronglySorted newer_first files
    ∧ (2 < Z.of_nat (length files) →
       attempted (prune Samples.mixed (Num 2)) = cname <$> drop (Z.to_nat 2) files
       ∧ remaining (prune Samples.mixed (Num 2)) `sublist_of` Samples.mixed
       ∧ ∀ e, e ∈ remaining (prune Samples.mixed (Num 2))
              ↔ e ∈ Samples.mixed ∧ (¬ is_substring "_" (name e)
                         ∨ to_cand e ∈ take (Z.to_nat 2) files)).
Proof.
  apply (cleanup_prunes_beyond_retention Samples.mixed 2).
  - unfold well_formed. compute_done.
  - unfold stat_ok. compute_done.
  - compute_done.
  - lia.
Defined.

(** C3, as stated, fails: of three artifacts pruned with retention 1, one
    remains, not 3 - 1. *)
Lemma cleanup_remaining_count_counterexample :
  ¬ (∀ (d : Dir) (R : Z),
       well_formed d → Forall (λ e, removable e = true) d →
       Forall (λ e, is_substring "_" (name e)) d →
       1 ≤ R < Z.of_nat (length d) →
       Z.of_nat (length (remaining (prune d (Num R)))) = Z.of_nat (length d) - R).
Proof.
  intros H. specialize (H Samples.three 1).
  assert (Hgoal : Z.of_nat (length (remaining (prune Samples.three (Num 1))))
                  = Z.of_nat (length Samples.three) - 1).
  { apply H.
    - unfold well_formed. compute_done.
    - compute_done.
    - repeat constructor; apply includes_spec; reflexivity.
    - simpl. lia. }
  vm_compute in Hgoal. discriminate.
Qed.

(** C3, amended: with [N] artifacts, each of which can be stat'ed and
    removed, and [1 ≤ R < N], exactly [R] files remain after the prune
    ([N - R] are deleted), and no deleted file is newer than a kept one. *)
Theorem cleanup_keeps_most_recent (d : Dir) (R : Z) :
  well_formed d → stat_ok d → Forall (λ e, removable e = true) d →
  Forall (λ e, is_substring "_" (name e)) d →
  1 ≤ R < Z.of_nat (length d) →
  let kept := remaining (prune d (Num R)) in
  Z.of_nat (length kept) = R
  ∧ (∀ e, e ∈ kept → e ∈ d)
  ∧ (∀ k x, k ∈ kept → x ∈ d → x ∉ kept → mtime x ≤ mtime k).
Proof.
  intros Hwf Hst Hall Hcand HR kept.
  set (files := sort by_mtime_desc (candidates d)).
  assert (Hcands : candidates d = to_cand <$> d).
  { unfold candidates. f_equal. clear -Hcand.
    induction Hcand as [|e d He _ IH]; [done|].
    rewrite filter_cons. rewrite decide_True by (by apply includes_spec).
    by rewrite IH. }
  assert (Hlen : length files = length d).
  { unfold files. by rewrite sort_length, Hcands, length_fmap. }
  assert (Hlt : R < Z.of_nat (length files)) by lia.
  assert (Hkept : kept = filter (λ e, name e ∉ cname <$> drop (Z.to_nat R) files) d).
  { unfold kept. by rewrite (prune_all_removable d R Hwf Hst Hall) by (done || lia). }
  assert (Hin : ∀ e, e ∈ kept ↔ e ∈ d ∧ to_cand e ∈ take (Z.to_nat R) files).
  { intros e. rewrite Hkept, list_elem_of_filter. split.
    - intros [Hout He]. split; [done|].
      apply (survives_iff d _ e Hwf He) in Hout as [Hno|Hyes]; [|done].
      rewrite Forall_forall in Hcand. exfalso. apply Hno. by apply Hcand.
    - intros [He Hyes]. split; [|done]. apply (survives_iff d _ e Hwf He). by right. }
  assert (Hnd : NoDup (cname <$> files)).
  { unfold files. rewrite sort_perm. by apply candidates_names_NoDup. }
  split; [|split].
  - assert (Hperm : to_cand <$> kept ≡ₚ take (Z.to_nat R) files).
    { apply NoDup_Permutation.
      - apply (NoDup_fmap_1 cname). rewrite <- list_fmap_compose.
        rewrite Hkept. by apply filter_names_well_formed.
      - apply (NoDup_fmap_1 cname). eapply sublist_NoDup; [exact Hnd|].
        apply fmap_sublist, sublist_take.
      - intros c. rewrite list_elem_of_fmap. split.
        + intros [e [-> He]]. by apply Hin.
        + intros Hc. assert (Hcf : c ∈ files).
          { rewrite <- (take_drop (Z.to_nat R) files). apply elem_of_app. by left. }
          unfold files in Hcf. rewrite elem_of_sort, Hcands in Hcf.
          apply list_elem_of_fmap in Hcf as [e [-> He]].
          exists e. split; [done|]. by apply Hin. }
    apply (f_equal length) in Hcands.
    rewrite <- (length_fmap to_cand), Hperm, length_take. lia.
  - intros e He. by apply Hin.
  - intros k x Hk Hx Hgone.
    apply Hin in Hk as [Hkd Hk].
    assert (Hxc : to_cand x ∈ drop (Z.to_nat R) files).
    { assert (Hxf : to_cand x ∈ files).
      { unfold files. rewrite elem_of_sort, Hcands. by apply list_elem_of_fmap_2. }
      rewrite <- (take_drop (Z.to_nat R) files) in Hxf.
      apply elem_of_app in Hxf as [Hxf|Hxf]; [|done].
      destruct Hgone. by apply Hin. }
    pose proof (sort_by_mtime_sorted (candidates d)) as Hs. fold files in Hs.
    rewrite <- (take_drop (Z.to_nat R) files) in Hs.
    exact (StronglySorted_app_1_elem_of _ _ _ _ _ Hs Hk Hxc).
Qed.

Lemma cleanup_keeps_most_recent_witness :
  let kept := remaining (prune Samples.three (Num 2)) in
  Z.of_nat (length kept) = 2
  ∧ (∀ e, e ∈ kept → e ∈ Samples.three)
  ∧ (∀ k x, k ∈ kept → x ∈ Samples.three → x ∉ kept → mtime x ≤ mtime k).
Proof.
  apply (cleanup_keeps_most_recent Samples.three 2).
  - unfold well_formed. compute_done.
  - unfold stat_ok. compute_done.
  - compute_done.
  - repeat constructor; apply includes_spec; reflexivity.
  - simpl. lia.
Defined.

Lemma deleted_prefix_app (d : Dir) (pre post : list Candidate) (f : Candidate) :
  Forall (λ c, deletable d c = true) pre → deletable d f = false →
  deleted_prefix d (pre ++ f :: post) = pre.
Proof.
  intros Hpre Hf. induction Hpre as [|c pre Hc _ IH]; simpl.
  - by rewrite Hf.
  - by rewrite Hc, IH.
Qed.

Lemma take_through {A : Type} (pre post : list A) (f : A) :
  take (S (length pre)) (pre ++ f :: post) = pre ++ [f].
Proof. induction pre as [|x pre IH]; simpl; [by rewrite take_0 | by rewrite IH]. Qed.

Lemma slice_sublist {A : Type} (r : num) (l : list A) : slice r l `sublist_of` l.
Proof. unfold slice. apply sublist_drop. Qed.

Example prune_stuck :
  prune Samples.stuck (Num 1)
  = {| remaining := Samples.stuck; attempted := ["db_2024-01-02"] |}.
Proof. vm_compute. reflexivity. Qed.

(** C2, as stated, fails: with retention 1 and the second-newest of three
    artifacts undeletable, [fs.remove] is never called on the oldest one. *)
Lemma cleanup_continues_after_failure_counterexample :
  ¬ (∀ (d : Dir) (r : num) (files : list Candidate) (i j : nat)
       (f g : Candidate) (msg : string),
       well_formed d → backupFiles d = Some files →
       gt_num (Z.of_nat (length files)) r = true →
       slice r files !! i = Some f → fs_remove (cname f) d = Throw msg →
       (i < j)%nat → slice r files !! j = Some g →
       cname g ∈ attempted (prune d r)).
Proof.
  intros H.
  assert (Hin : "db_2024-01-01" ∈ attempted (prune Samples.stuck (Num 1))).
  { eapply (H Samples.stuck (Num 1) _ 0%nat 1%nat
              {| cname := "db_2024-01-02"; cmtime := 20 |}
              {| cname := "db_2024-01-01"; cmtime := 10 |}).
    - unfold well_formed. compute_done.
    - vm_compute. reflexivity.
    - reflexivity.
    - reflexivity.
    - vm_compute. reflexivity.
    - lia.
    - reflexivity. }
  revert Hin. compute_done.
Qed.

(** C2, amended: a failing deletion ends the prune.  The candidates behind
    the retention index that come before the failing one are deleted; the
    failing one and every later candidate stay in the directory, and
    [fs.remove] is not called on any later candidate. *)
Theorem cleanup_stops_at_first_failure
    (d : Dir) (r : num) (files pre post : list Candidate) (f : Candidate)
    (msg : string) :
  well_formed d → backupFiles d = Some files →
  gt_num (Z.of_nat (length files)) r = true →
  slice r files = pre ++ f :: post →
  Forall (λ c, deletable d c = true) pre →
  fs_remove (cname f) d = Throw msg →
  attempted (prune d r) = cname <$> (pre ++ [f])
  ∧ (∀ e, e ∈ remaining (prune d r) ↔ e ∈ d ∧ name e ∉ cname <$> pre)
  ∧ (∀ g, g ∈ f :: post → ∃ e, e ∈ remaining (prune d r) ∧ to_cand e = g)
  ∧ (∀ g, g ∈ post → cname g ∉ attempted (prune d r)).
Proof.
  intros Hwf Hfiles Hgt Hslice Hpre Hfail.
  destruct (backupFiles_inv d files Hwf Hfiles) as [Hst ->].
  assert (Hf : deletable d f = false).
  { destruct (deletable d f) eqn:Hd; [|done].
    rewrite (fs_remove_deletable d f Hd) in Hfail. discriminate. }
  assert (Hnd : NoDup (cname <$> (pre ++ f :: post))).
  { rewrite <- Hslice.
    assert (Hs : NoDup (cname <$> sort by_mtime_desc (candidates d))).
    { rewrite sort_perm. by apply candidates_names_NoDup. }
    eapply sublist_NoDup; [exact Hs|]. apply fmap_sublist, slice_sublist. }
  rewrite (prune_spec d r Hwf Hst), Hgt, Hslice.
  rewrite (deleted_prefix_app d pre post f Hpre Hf), take_through. simpl.
  split; [done|].
  assert (Hrem : ∀ e, e ∈ filter (λ e, name e ∉ cname <$> pre) d
                      ↔ e ∈ d ∧ name e ∉ cname <$> pre).
  { intros e. rewrite list_elem_of_filter. tauto. }
  split; [exact Hrem|].
  rewrite fmap_app in Hnd. apply NoDup_app in Hnd as (_ & Hdisj & Hnd).
  split.
  - intros g Hg.
    assert (Hgf : g ∈ sort by_mtime_desc (candidates d)).
    { eapply elem_of_sublist; [|apply (slice_sublist r)].
      rewrite Hslice. apply elem_of_app. by right. }
    rewrite elem_of_sort, elem_of_candidates in Hgf.
    destruct Hgf as (e & He & -> & _). exists e. split; [|done].
    apply Hrem. split; [done|]. intros Hin.
    apply (Hdisj (name e) Hin). by apply (list_elem_of_fmap_2 cname) in Hg.
  - intros g Hg Hin. rewrite fmap_app in Hin.
    apply elem_of_app in Hin as [Hin|Hin].
    + apply (Hdisj (cname g) Hin). rewrite fmap_cons. right.
      by apply list_elem_of_fmap_2.
    + rewrite fmap_cons in Hnd. apply NoDup_cons in Hnd as [Hfresh _].
      apply list_elem_of_singleton in Hin. apply Hfresh. rewrite <- Hin.
      by apply list_elem_of_fmap_2.
Qed.

Lemma cleanup_stops_at_first_failure_witness :
  attempted (prune Samples.stuck (Num 1)) = ["db_2024-01-02"]
  ∧ ∀ g, g ∈ [{| cname := "db_2024-01-01"; cmtime := 10 |}] →
         cname g ∉ attempted (prune Samples.stuck (Num 1)).
Proof.
  assert (Hwf : well_formed Samples.stuck) by (unfold well_formed; compute_done).
  pose proof (cleanup_stops_at_first_failure Samples.stuck (Num 1)
    [{| cname := "db_2024-01-03"; cmtime := 30 |};
     {| cname := "db_2024-01-02"; cmtime := 20 |};
     {| cname := "db_2024-01-01"; cmtime := 10 |}]
    [] [{| cname := "db_2024-01-01"; cmtime := 10 |}]
    {| cname := "db_2024-01-02"; cmtime := 20 |}
    "EPERM: operation not permitted, unlink db_2024-01-02"
    Hwf eq_refl eq_refl eq_refl (Forall_nil_2 _) eq_refl) as (Ha & _ & _ & Hlater).
  split; [exact Ha | exact Hlater].
Defined.

(** C9, as stated, fails: with the retention -1 (the label value "-1")
    every run deletes the oldest of three artifacts, so a second run
    changes the directory again. *)
Lemma cleanup_idempotent_counterexample :
  ¬ (∀ (path : string) (r : num) (fs : FS),
       (∀ d, fs !! path = Some d → well_formed d) →
       cleanupOldBackups path r (cleanupOldBackups path r fs)
       = cleanupOldBackups path r fs).
Proof.
  intros H.
  specialize (H "/backups/db" (Num (-1)) {[ "/backups/db" := Samples.three ]}).
  assert (Hwf : ∀ d, ({[ "/backups/db" := Samples.three ]} : FS) !! "/backups/db" = Some d
                     → well_formed d).
  { intros d. rewrite lookup_singleton_eq. intros [= <-].
    unfold well_formed. compute_done. }
  specialize (H Hwf). apply (f_equal (λ m : FS, length <$> m !! "/backups/db")) in H.
  vm_compute in H. discriminate.
Qed.

(** C9, amended: for every retention that is [NaN] or not negative, a second
    prune leaves the host file system as the first one left it; and when
    the candidate count does not exceed the retention, nothing is deleted
    and no deletion is attempted. *)
Theorem cleanupOldBackups_idempotent (path : string) (r : num) (fs : FS) :
  (∀ d, fs !! path = Some d → well_formed d) → not_negative r →
  cleanupOldBackups path r (cleanupOldBackups path r fs)
  = cleanupOldBackups path r fs
  ∧ (∀ d files z,
       fs !! path = Some d → backupFiles d = Some files → r = Num z →
       Z.of_nat (length files) ≤ z →
       prune d r = {| remaining := d; attempted := [] |}
       ∧ cleanupOldBackups path r fs = fs).
Proof.
  intros Hwf Hr. split.
  - unfold cleanupOldBackups. destruct (fs !! path) as [d|] eqn:Hd.
    + rewrite lookup_insert_eq, insert_insert_eq.
      by rewrite (prune_idempotent d r (Hwf d eq_refl) Hr).
    + by rewrite Hd.
  - intros d files z Hd Hfiles -> Hle.
    assert (Hp : prune d (Num z) = {| remaining := d; attempted := [] |}).
    { unfold prune. rewrite Hfiles. simpl.
      by destruct (Z.ltb_spec z (Z.of_nat (length files))); [lia|]. }
    split; [done|]. unfold cleanupOldBackups. rewrite Hd, Hp. simpl.
    by apply insert_id.
Qed.

Lemma cleanupOldBackups_idempotent_witness :
  let fs : FS := {[ "/backups/db" := Samples.stuck ]} in
  cleanupOldBackups "/backups/db" (Num 1) (cleanupOldBackups "/backups/db" (Num 1) fs)
  = cleanupOldBackups "/backups/db" (Num 1) fs.
Proof.
  intros fs.
  apply (cleanupOldBackups_idempotent "/backups/db" (Num 1) fs).
  - intros d. unfold fs. rewrite lookup_singleton_eq. intros [= <-].
    unfold well_formed. compute_done.
  - simpl. lia.
Defined.

(** ** executeBackup *)

Section PipelineProofs.
Context (W : World).

Lemma step_trace (ev : event) (h h' : Host) (r : completion ()) :
  is_step ev → step W ev h = (r, h') → trace h' = trace h ++ [ev].
Proof.
  destruct ev as [| |id cmd|cmd|]; simpl; try done; intros _.
  - unfold mbind, M_bind, execIn.
    destruct (execInContainer _); intros [= _ <-]; done.
  - unfold execAsync. destruct (child_process W h cmd); intros [= _ <-]; done.
Qed.

Lemma Runs_trace (steps : list event) (h h' : Host) :
  Forall is_step steps → Runs W steps h h' → trace h' = trace h ++ steps.
Proof.
  intros Hall Hruns. induction Hruns as [h|ev steps h h1 h2 Hev _ IH].
  - by rewrite app_nil_r.
  - apply Forall_cons in Hall as [Hstep Hall].
    rewrite (IH Hall), (step_trace ev h h1 _ Hstep Hev), <- app_assoc. done.
Qed.

Lemma Runs_app (pre post : list event) (h h1 h2 : Host) :
  Runs W pre h h1 → Runs W post h1 h2 → Runs W (pre ++ post) h h2.
Proof.
  induction 1 as [|ev steps h h1' h2' Hev _ IH]; simpl; [done|].
  intros Hpost. econstructor; [exact Hev|]. by apply IH.
Qed.

Lemma Runs_deterministic (steps : list event) (h h1 h2 : Host) :
  Runs W steps h h1 → Runs W steps h h2 → h1 = h2.
Proof.
  intros H1. revert h2. induction H1 as [|ev steps h ha hb Hev _ IH]; intros h2 H2.
  - by inversion H2.
  - inversion H2 as [|? ? ? ha' ? Hev' Hrest]; subst.
    rewrite Hev in Hev'. injection Hev' as <-. by apply IH.
Qed.

(** A step that fails after a successful prefix rules out a successful run
    of the whole plan. *)
Lemma Runs_excludes_failure (pre post : list event) (st : event) (h hk hf h' : Host) :
  Runs W pre h hk → Fails W st hk hf → ¬ Runs W (pre ++ st :: post) h h'.
Proof.
  intros Hpre [msg Hfail]. induction Hpre as [|ev steps h ha hb Hev _ IH]; simpl.
  - intros Hruns. inversion Hruns as [|? ? ? ? ? Hst _]; subst. congruence.
  - intros Hruns. inversion Hruns as [|? ? ? ha' ? Hev' Hrest]; subst.
    rewrite Hev in Hev'. injection Hev' as <-. by apply IH.
Qed.

Lemma run_all_succeeds (steps : list event) (h h' : Host) :
  Runs W steps h h' → run_all W steps h = (Normal (), h').
Proof.
  induction 1 as [|ev steps h h1 h2 Hev _ IH]; [done|].
  simpl. unfold mbind, M_bind at 1. by rewrite Hev.
Qed.

Lemma run_all_fails (pre post : list event) (st : event) (h hk hf : Host) (msg : string) :
  Runs W pre h hk → step W st hk = (Throw msg, hf) →
  run_all W (pre ++ st :: post) h = (Throw msg, hf).
Proof.
  induction 1 as [|ev steps h h1 h2 Hev _ IH]; intros Hfail; simpl.
  - unfold mbind, M_bind at 1. by rewrite Hfail.
  - unfold mbind, M_bind at 1. rewrite Hev. by apply IH.
Qed.

(** Every plan either runs through or stops at a first failing step. *)
Lemma run_all_cases (steps : list event) (h : Host) :
  (∃ hk, Runs W steps h hk)
  ∨ (∃ pre st post hk hf,
       steps = pre ++ st :: post ∧ Runs W pre h hk ∧ Fails W st hk hf).
Proof.
  revert h. induction steps as [|ev steps IH]; intros h.
  - left. exists h. constructor.
  - destruct (step W ev h) as [[[]|msg] h1] eqn:Hev.
    + destruct (IH h1) as [[hk Hk]|(pre & st & post & hk & hf & -> & Hpre & Hf)].
      * left. exists hk. by econstructor.
      * right. exists (ev :: pre), st, post, hk, hf.
        split; [done|]. split; [by econstructor | done].
    + right. exists [], ev, steps, h, h1.
      split; [done|]. split; [constructor | by exists msg].
Qed.

Lemma plan_steps (config : BackupConfig) (ts : string) :
  Forall is_step (plan W config ts).
Proof.
  unfold plan.
  destruct (truthy (preCommand config)), (truthy (command config)),
    (truthy (postCommand config)); simpl; repeat constructor.
Qed.

(** The guarded block of [executeBackup] is the plan followed by the
    cleanup. *)
Lemma executeBackup_unfold (config : BackupConfig) (h : Host) :
  let h0 := record (EvExecuteBackup config) h in
  let ts := replace_colon_dot (now W h0) in
  executeBackup W config h
  = match ensureDir W (hostBackupPath W config) h0 with
    | (Throw msg, h1) => (Throw msg, h1)
    | (Normal _, h1) =>
        match run_all W (plan W config ts) h1 with
        | (Normal _, hk) => (Normal true, after_cleanup W config hk)
        | (Throw _, hf) => (Normal false, hf)
        end
    end.
Proof.
  intros h0 ts. unfold executeBackup, emit, timestamp.
  unfold mbind at 1, M_bind at 1. fold h0.
  unfold mbind at 1, M_bind at 1. fold ts.
  unfold mbind at 1, M_bind at 1.
  destruct (ensureDir W (hostBackupPath W config) h0) as [[[]|msg] h1]; [|done].
  unfold try_catch, plan, when.
  destruct (truthy (preCommand config)), (truthy (command config)),
    (truthy (postCommand config)); simpl;
    unfold mbind, M_bind, mret, M_ret, cleanup, after_cleanup;
    repeat match goal with
           | |- context [execIn W ?i ?c ?s] => destruct (execIn W i c s) as [[?|?] ?]
           | |- context [execAsync W ?c ?s] => destruct (execAsync W c s) as [[[]|?] ?]
           end; reflexivity.
Qed.

Lemma ensureDir_trace (path : string) (h h' : Host) (r : completion ()) :
  ensureDir W path h = (r, h') → trace h' = trace h ++ [EvEnsureDir path].
Proof.
  unfold ensureDir. destruct (ensureDir_err W h path); [by intros [= _ <-]|].
  destruct (fs h !! path); by intros [= _ <-].
Qed.

(** C7: once the host directory exists, a failing step (pre-command, main
    command, copy or post-command) makes [executeBackup] return [false]
    with nothing issued after that step, in particular no cleanup; when
    every step succeeds the cleanup is invoked and [true] is returned; and
    the cleanup event appears exactly in that second case. *)
Theorem executeBackup_stops_at_first_failure (config : BackupConfig) (h h1 : Host) :
  let h0 := record (EvExecuteBackup config) h in
  let steps := plan W config (replace_colon_dot (now W h0)) in
  let invoked := EvCleanup (hostBackupPath W config) (retention config) in
  ensureDir W (hostBackupPath W config) h0 = (Normal (), h1) →
  (∀ pre st post hk hf,
     steps = pre ++ st :: post → Runs W pre h1 hk → Fails W st hk hf →
     executeBackup W config h = (Normal false, hf)
     ∧ trace hf = trace h1 ++ pre ++ [st]
     ∧ ∀ path r, EvCleanup path r ∉ pre ++ [st])
  ∧ (∀ hk,
       Runs W steps h1 hk →
       executeBackup W config h = (Normal true, after_cleanup W config hk)
       ∧ trace (after_cleanup W config hk) = trace h1 ++ steps ++ [invoked])
  ∧ ((executeBackup W config h).1 = Normal true
     ∨ (executeBackup W config h).1 = Normal false)
  ∧ ((executeBackup W config h).1 = Normal true ↔ ∃ hk, Runs W steps h1 hk)
  ∧ ((executeBackup W config h).1 = Normal true
     ↔ invoked ∈ drop (length (trace h1)) (trace (executeBackup W config h).2)).
Proof.
  intros h0 steps invoked Hdir.
  pose proof (executeBackup_unfold config h) as Hunfold. simpl in Hunfold.
  fold h0 in Hunfold. rewrite Hdir in Hunfold. fold steps in Hunfold.
  assert (Hsteps : Forall is_step steps) by apply plan_steps.
  assert (Hfail : ∀ pre st post hk hf,
     steps = pre ++ st :: post → Runs W pre h1 hk → Fails W st hk hf →
     executeBackup W config h = (Normal false, hf)
     ∧ trace hf = trace h1 ++ pre ++ [st]
     ∧ ∀ path r, EvCleanup path r ∉ pre ++ [st]).
  { intros pre st post hk hf Heq Hpre [msg Hst].
    rewrite Heq in Hsteps. apply Forall_app in Hsteps as [Hp Hs].
    apply Forall_cons in Hs as [Hs _].
    rewrite Hunfold, Heq, (run_all_fails pre post st h1 hk hf msg Hpre Hst).
    split; [done|]. split.
    - by rewrite (step_trace st hk hf _ Hs Hst), (Runs_trace pre h1 hk Hp Hpre), <- app_assoc.
    - intros path r Hin. apply elem_of_app in Hin as [Hin|Hin].
      + rewrite Forall_forall in Hp. by apply Hp in Hin.
      + apply list_elem_of_singleton in Hin. by subst st. }
  assert (Hok : ∀ hk,
       Runs W steps h1 hk →
       executeBackup W config h = (Normal true, after_cleanup W config hk)
       ∧ trace (after_cleanup W config hk) = trace h1 ++ steps ++ [invoked]).
  { intros hk Hruns. rewrite Hunfold, (run_all_succeeds steps h1 hk Hruns).
    split; [done|]. simpl. by rewrite (Runs_trace steps h1 hk Hsteps Hruns), <- app_assoc. }
  split; [exact Hfail|]. split; [exact Hok|].
  destruct (run_all_cases steps h1)
    as [[hk Hruns]|(pre & st & post & hk & hf & Heq & Hpre & Hst)].
  - destruct (Hok hk Hruns) as [-> Htrace]. cbn [fst snd].
    split; [by left|]. split; [split; eauto|].
    split; [intros _|done].
    rewrite Htrace, drop_app_length. apply elem_of_app. right. by left.
  - destruct (Hfail pre st post hk hf Heq Hpre Hst) as (-> & Htrace & Hnone).
    cbn [fst snd].
    split; [by right|]. split.
    + split; [done|]. intros [hk' Hruns]. exfalso. rewrite Heq in Hruns.
      by apply (Runs_excludes_failure pre post st h1 hk hf hk' Hpre Hst).
    + split; [done|]. rewrite Htrace, drop_app_length. intros Hin.
      by apply Hnone in Hin.
Qed.

Lemma executeBackup_trace (config : BackupConfig) (h : Host) :
  ∃ rest,
    trace (executeBackup W config h).2
    = trace h ++ EvExecuteBackup config
        :: EvEnsureDir (hostBackupPath W config) :: rest
    ∧ Forall is_inner rest.
Proof.
  pose proof (executeBackup_unfold config h) as Hunfold. simpl in Hunfold.
  set (h0 := record (EvExecuteBackup config) h) in *.
  set (steps := plan W config (replace_colon_dot (now W h0))) in *.
  assert (Hsteps : Forall is_step steps) by apply plan_steps.
  assert (Hinner : ∀ l, Forall is_step l → Forall is_inner l).
  { intros l Hl. eapply Forall_impl; [exact Hl|]. by intros []. }
  destruct (ensureDir W (hostBackupPath W config) h0) as [[[]|msg] h1] eqn:Hdir;
    apply ensureDir_trace in Hdir; simpl in Hdir.
  - destruct (run_all_cases steps h1)
      as [[hk Hruns]|(pre & st & post & hk & hf & Heq & Hpre & [msg Hst])].
    + rewrite Hunfold, (run_all_succeeds steps h1 hk Hruns). simpl.
      rewrite (Runs_trace steps h1 hk Hsteps Hruns), Hdir.
      exists (steps ++ [EvCleanup (hostBackupPath W config) (retention config)]).
      split; [by rewrite <- !app_assoc|].
      apply Forall_app. split; [by apply Hinner | by repeat constructor].
    + rewrite Heq in Hsteps. apply Forall_app in Hsteps as [Hp Hs].
      apply Forall_cons in Hs as [Hs _].
      rewrite Hunfold, Heq, (run_all_fails pre post st h1 hk hf msg Hpre Hst). simpl.
      rewrite (step_trace st hk hf _ Hs Hst), (Runs_trace pre h1 hk Hp Hpre), Hdir.
      exists (pre ++ [st]). split; [by rewrite <- !app_assoc|].
      apply Hinner, Forall_app. split; [done | by repeat constructor].
  - rewrite Hunfold. simpl. rewrite Hdir. exists []. by split; [rewrite <- app_assoc|].
Qed.

End PipelineProofs.

Example executeBackup_calm :
  executeBackup Samples.calm Samples.mysql_config Samples.fresh
  = (Normal true,
     {| trace :=
          [EvExecuteBackup Samples.mysql_config;
           EvEnsureDir "/backups/mysql-app";
           EvExec "3f2a" "mkdir -p /tmp/backup";
           EvExec "3f2a" "mysqldump --all-databases > /tmp/backup/mysql-app_2024-01-03T02-00-00-000Z";
           EvExecAsync "docker cp 3f2a:/tmp/backup/mysql-app_2024-01-03T02-00-00-000Z /backups/mysql-app/";
           EvExec "3f2a" "rm -rf /tmp/backup/*";
           EvCleanup "/backups/mysql-app" (Num 2)];
        fs := {[ "/backups/mysql-app" := [] ]} |}).
Proof. vm_compute. reflexivity. Qed.

Lemma executeBackup_stops_at_first_failure_witness :
  (executeBackup Samples.broken_copy Samples.mysql_config Samples.fresh).1
  = Normal false.
Proof.
  set (h1 := (ensureDir Samples.broken_copy "/backups/mysql-app"
                (record (EvExecuteBackup Samples.mysql_config) Samples.fresh)).2).
  destruct (executeBackup_stops_at_first_failure Samples.broken_copy
              Samples.mysql_config Samples.fresh h1 eq_refl) as (Hfail & _).
  pose (ev1 := EvExec "3f2a" "mkdir -p /tmp/backup").
  pose (ev2 := EvExec "3f2a"
    "mysqldump --all-databases > /tmp/backup/mysql-app_2024-01-03T02-00-00-000Z").
  pose (ev3 := EvExecAsync
    "docker cp 3f2a:/tmp/backup/mysql-app_2024-01-03T02-00-00-000Z /backups/mysql-app/").
  pose (ev4 := EvExec "3f2a" "rm -rf /tmp/backup/*").
  destruct (Hfail [ev1; ev2] ev3 [ev4]
              (record ev2 (record ev1 h1)) (record ev3 (record ev2 (record ev1 h1))))
    as (Hres & _).
  - vm_compute. reflexivity.
  - eapply Runs_cons; [vm_compute; reflexivity|].
    eapply Runs_cons; [vm_compute; reflexivity|]. apply Runs_nil.
  - exists "Command failed: docker cp". vm_compute. reflexivity.
  - by rewrite Hres.
Defined.

(** ** runBackups *)

Section RunProofs.
Context (W : World).

(** Removing a container that fails one of the two guards from the list
    the loop iterates over changes nothing: not the results, not the trace,
    not the host file system. *)
Lemma run_loop_skip (c : ContainerInfo) (cfg : BackupConfig)
    (pre post : list ContainerInfo) (results : list RunResult) (h : Host) :
  extractBackupConfig (labelPrefix W) c = Normal cfg →
  eligible cfg = false →
  run_loop W (pre ++ c :: post) results h = run_loop W (pre ++ post) results h.
Proof.
  intros Hcfg Hskip. revert results h.
  induction pre as [|a pre IH]; intros results h; simpl.
  - unfold mbind at 1, M_bind at 1, lift. rewrite Hcfg.
    unfold eligible in Hskip.
    destruct (enabled cfg); [|done]. simpl in *. by rewrite Hskip.
  - unfold mbind at 1 3, M_bind at 1 3, lift.
    destruct (extractBackupConfig (labelPrefix W) a) as [cfga|msg]; [|done].
    destruct (negb (enabled cfga)); [apply IH|].
    destruct (negb (truthy (command cfga))); [apply IH|].
    unfold mbind, M_bind.
    destruct (executeBackup W cfga h) as [[ok|msg] h1]; [apply IH|done].
Qed.

(** The events a run of the loop adds all stem from calls of
    [executeBackup] on eligible configurations of listed containers, and so
    do the results it appends. *)
Lemma run_loop_invokes_eligible (containers : list ContainerInfo)
    (results : list RunResult) (h : Host) :
  ∃ new,
    trace (run_loop W containers results h).2 = trace h ++ new
    ∧ (∀ cfg, EvExecuteBackup cfg ∈ new →
         eligible cfg = true
         ∧ ∃ c, c ∈ containers ∧ extractBackupConfig (labelPrefix W) c = Normal cfg)
    ∧ (∀ p, EvEnsureDir p ∈ new →
         ∃ cfg, EvExecuteBackup cfg ∈ new ∧ p = hostBackupPath W cfg)
    ∧ (∀ rs, (run_loop W containers results h).1 = Normal rs →
         ∃ added, rs = results ++ added
           ∧ ∀ x, x ∈ added →
               ∃ cfg, EvExecuteBackup cfg ∈ new ∧ container x = containerName cfg).
Proof.
  revert results h. induction containers as [|c rest IH]; intros results h.
  - exists []. simpl. rewrite app_nil_r. split; [done|].
    split; [by intros cfg Hin; apply elem_of_nil in Hin|].
    split; [by intros p Hin; apply elem_of_nil in Hin|].
    intros rs [= <-]. exists []. rewrite app_nil_r. split; [done|].
    by intros x Hin; apply elem_of_nil in Hin.
  - assert (Hlift : ∀ rs' h',
      (∃ new,
        trace (run_loop W rest rs' h').2 = trace h' ++ new
        ∧ (∀ cfg, EvExecuteBackup cfg ∈ new →
             eligible cfg = true
             ∧ ∃ c0, c0 ∈ c :: rest
                     ∧ extractBackupConfig (labelPrefix W) c0 = Normal cfg)
        ∧ (∀ p, EvEnsureDir p ∈ new →
             ∃ cfg, EvExecuteBackup cfg ∈ new ∧ p = hostBackupPath W cfg)
        ∧ (∀ rs, (run_loop W rest rs' h').1 = Normal rs →
             ∃ added, rs = rs' ++ added
               ∧ ∀ x, x ∈ added →
                   ∃ cfg, EvExecuteBackup cfg ∈ new
                          ∧ container x = containerName cfg))).
    { intros rs' h'. destruct (IH rs' h') as (new & Ht & Hcall & Hdir & Hres).
      exists new. split; [done|]. split; [|done].
      intros cfg Hin. destruct (Hcall cfg Hin) as (He & c0 & Hc0 & Hx).
      split; [done|]. exists c0. split; [by right | done]. }
    simpl. unfold mbind at 1 3, M_bind at 1 3, lift.
    destruct (extractBackupConfig (labelPrefix W) c) as [cfg|msg] eqn:Hcfg.
    2:{ exists []. simpl. rewrite app_nil_r. split; [done|].
        split; [by intros cfg Hin; apply elem_of_nil in Hin|].
        split; [by intros p Hin; apply elem_of_nil in Hin | done]. }
    destruct (enabled cfg) eqn:Hen; simpl; [|apply Hlift].
    destruct (truthy (command cfg)) eqn:Hcmd; simpl; [|apply Hlift].
    destruct (executeBackup_trace W cfg h) as (inner & Htrace & Hinner).
    unfold mbind, M_bind.
    destruct (executeBackup W cfg h) as [[ok|msg] h1]; simpl in Htrace.
    + set (entry := {| container := containerName cfg; success := ok |}).
      destruct (IH (results ++ [entry]) h1) as (new & Ht & Hcall & Hdir & Hres).
      exists (EvExecuteBackup cfg :: EvEnsureDir (hostBackupPath W cfg) :: inner ++ new).
      split; [by rewrite Ht, Htrace, <- !app_assoc|].
      rewrite Forall_forall in Hinner.
      split; [|split].
      * intros cfg' Hin. apply elem_of_cons in Hin as [[= ->]|Hin].
        { split; [unfold eligible; by rewrite Hen, Hcmd|].
          exists c. split; [left | done]. }
        apply elem_of_cons in Hin as [?|Hin]; [done|].
        apply elem_of_app in Hin as [Hin|Hin]; [by apply Hinner in Hin|].
        destruct (Hcall cfg' Hin) as (He & c0 & Hc0 & Hx).
        split; [done|]. exists c0. split; [by right | done].
      * intros p Hin. apply elem_of_cons in Hin as [?|Hin]; [done|].
        apply elem_of_cons in Hin as [[= ->]|Hin]; [exists cfg; split; [left|done]|].
        apply elem_of_app in Hin as [Hin|Hin]; [by apply Hinner in Hin|].
        destruct (Hdir p Hin) as (cfg' & Hc' & ->). exists cfg'.
        split; [|done]. do 2 right. apply elem_of_app. by right.
      * intros rs Hrs. destruct (Hres rs Hrs) as (added & -> & Hadded).
        exists (entry :: added). split; [by rewrite <- app_assoc|].
        intros x Hin. apply elem_of_cons in Hin as [->|Hin].
        { exists cfg. split; [left | done]. }
        destruct (Hadded x Hin) as (cfg' & Hc' & Hn). exists cfg'.
        split; [|done]. do 2 right. apply elem_of_app. by right.
    + exists (EvExecuteBackup cfg :: EvEnsureDir (hostBackupPath W cfg) :: inner).
      split; [done|]. rewrite Forall_forall in Hinner. split; [|split].
      * intros cfg' Hin. apply elem_of_cons in Hin as [[= ->]|Hin].
        { split; [unfold eligible; by rewrite Hen, Hcmd|].
          exists c. split; [left | done]. }
        apply elem_of_cons in Hin as [?|Hin]; [done|]. by apply Hinner in Hin.
      * intros p Hin. apply elem_of_cons in Hin as [?|Hin]; [done|].
        apply elem_of_cons in Hin as [[= ->]|Hin]; [exists cfg; split; [left|done]|].
        by apply Hinner in Hin.
      * done.
Qed.

(** C8: a container whose configuration is disabled or has no command is
    skipped.  Dropping it from the loop changes nothing; in the whole run
    [executeBackup] is never called on its configuration, every
    [ensureDir] belongs to a call of [executeBackup] on an eligible
    configuration, and so does every entry of the results. *)
Theorem runBackups_skips_ineligible
    (h : Host) (c : ContainerInfo) (cfg : BackupConfig) :
  extractBackupConfig (labelPrefix W) c = Normal cfg →
  (enabled cfg = false ∨ truthy (command cfg) = false) →
  (∀ pre post results h0,
     run_loop W (pre ++ c :: post) results h0 = run_loop W (pre ++ post) results h0)
  ∧ ∃ new,
      trace (snd (runBackups W h)) = trace h ++ new
      ∧ (EvExecuteBackup cfg ∉ new)
      ∧ (∀ p, EvEnsureDir p ∈ new →
           ∃ cfg', eligible cfg' = true ∧ EvExecuteBackup cfg' ∈ new
                   ∧ p = hostBackupPath W cfg')
      ∧ (∀ results x,
           fst (runBackups W h) = Normal (Some results) → x ∈ results →
           ∃ cfg', eligible cfg' = true ∧ EvExecuteBackup cfg' ∈ new
                   ∧ container x = containerName cfg').
Proof.
  intros Hcfg Hskip.
  assert (Hinel : eligible cfg = false).
  { unfold eligible. destruct Hskip as [-> | ->]; [done | apply andb_false_r]. }
  split; [intros; by eapply run_loop_skip|].
  assert (Hrun : ∃ containers,
    runBackups W h
    = if bool_decide (length containers = 0%nat) then (Normal None, h)
      else match run_loop W containers [] h with
           | (Normal rs, h1) => (Normal (Some rs), h1)
           | (Throw msg, h1) => (Throw msg, h1)
           end).
  { unfold runBackups, mbind, M_bind, getBackupContainers.
    destruct (listContainers W h) as [cs|msg];
      [exists (filter (λ c0, strict_eq (label (labelPrefix W) c0 "backup") "true" = true) cs)
      | exists []];
      by destruct (bool_decide _). }
  destruct Hrun as [containers ->].
  destruct (bool_decide (length containers = 0%nat)).
  { exists []. simpl. rewrite app_nil_r. split; [done|].
    split; [apply not_elem_of_nil|].
    split; [by intros p Hin; apply elem_of_nil in Hin | done]. }
  destruct (run_loop_invokes_eligible containers [] h)
    as (new & Ht & Hcall & Hdir & Hres).
  exists new.
  destruct (run_loop W containers [] h) as [[rs|msg] h1]; simpl in *.
  - split; [done|]. split; [|split].
    + intros Hin. apply Hcall in Hin as [He _]. congruence.
    + intros p Hin. destruct (Hdir p Hin) as (cfg' & Hc' & ->).
      exists cfg'. split; [by apply Hcall|done].
    + intros results x [= <-] Hin.
      destruct (Hres rs eq_refl) as (added & -> & Hadded).
      destruct (Hadded x Hin) as (cfg' & Hc' & Hn).
      exists cfg'. split; [by apply Hcall|done].
  - split; [done|]. split; [|split].
    + intros Hin. apply Hcall in Hin as [He _]. congruence.
    + intros p Hin. destruct (Hdir p Hin) as (cfg' & Hc' & ->).
      exists cfg'. split; [by apply Hcall|done].
    + done.
Qed.

End RunProofs.

Example runBackups_calm :
  (runBackups Samples.calm Samples.fresh).1
  = Normal (Some [{| container := "mysql-app"; success := true |}]).
Proof. vm_compute. reflexivity. Qed.

Lemma runBackups_skips_ineligible_witness :
  ∃ cfg new,
    extractBackupConfig "docker-backup-tool" Samples.no_command = Normal cfg
    ∧ trace (snd (runBackups Samples.calm Samples.fresh)) = new
    ∧ EvExecuteBackup cfg ∉ new.
Proof.
  eexists.
  destruct (runBackups_skips_ineligible Samples.calm Samples.fresh Samples.no_command
              _ eq_refl (or_intror eq_refl)) as (_ & new & Ht & Hnot & _).
  exists new. split; [reflexivity|]. split; [exact Ht | exact Hnot].
Defined.

(** * Further properties of the service *)

(** ** Module options *)

Lemma forRoot_absent (options : option PartialOptions) (key : string) :
  default ∅ options !! key = None →
  get (forRoot options) key = get defaults key.
Proof. intros Hnone. unfold get, forRoot. by rewrite lookup_union_r. Qed.

Lemma forRoot_present (options : option PartialOptions) (key : string)
    (v : option string) :
  default ∅ options !! key = Some v → get (forRoot options) key = v.
Proof.
  intros Hsome. unfold get, forRoot.
  by rewrite (lookup_union_Some_l _ _ _ _ Hsome).
Qed.

(** X23: [forRoot] falls back to a default only for a property the caller
    leaves out; a property that is passed wins, even when it holds
    [undefined]. *)
Theorem forRoot_override (options : option PartialOptions) (key : string) :
  (default ∅ options !! key = None →
   get (forRoot options) key = get defaults key)
  ∧ (∀ v, default ∅ options !! key = Some v → get (forRoot options) key = v).
Proof. split; [apply forRoot_absent | apply forRoot_present]. Qed.

Lemma forRoot_override_witness :
  get (forRoot None) "labelPrefix" = Some "docker-backup-tool"
  ∧ get (forRoot (Some {[ "labelPrefix" := None ]})) "labelPrefix" = None.
Proof.
  split.
  - rewrite (proj1 (forRoot_override None "labelPrefix") eq_refl). reflexivity.
  - apply (proj2 (forRoot_override (Some {[ "labelPrefix" := None ]}) "labelPrefix")).
    reflexivity.
Defined.

(** X24: the options [AppModule] builds are the environment variables and
    nothing else: for an unset variable the option is [undefined], not the
    default. *)
Theorem appModule_reads_environment (env : gmap string string) :
  get (appModule env) "labelPrefix" = env !! "LABEL_PREFIX"
  ∧ get (appModule env) "backupDir" = env !! "BACKUP_DIR"
  ∧ get (appModule env) "cronSchedule" = env !! "CRON_SCHEDULE".
Proof.
  unfold appModule.
  split; [|split]; apply forRoot_present; simpl; by simplify_map_eq.
Qed.

(** ** Discovery and extraction *)

Lemma strict_eq_true (a : option string) (lit : string) :
  strict_eq a lit = true ↔ a = Some lit.
Proof.
  destruct a as [v|]; simpl; [|done].
  rewrite bool_decide_eq_true. split; [by intros -> | by intros [= ->]].
Qed.

Lemma replace_at_prefix (pat rep s : string) :
  String.prefix pat s = true →
  replace pat rep s = rep +:+ drop_chars (String.length pat) s.
Proof. intros H. destruct s; cbn -[String.prefix String.length]; by rewrite H. Qed.

Lemma replace_absent (pat rep s : string) :
  includes pat s = false → replace pat rep s = s.
Proof.
  induction s as [|c s IH].
  - change (includes pat EmptyString) with (String.prefix pat EmptyString || false).
    rewrite orb_false_r. intros H. cbn -[String.prefix]. by rewrite H.
  - change (includes pat (String c s))
      with (String.prefix pat (String c s) || includes pat s).
    intros [Hp Hi]%orb_false_elim. cbn -[String.prefix]. rewrite Hp.
    by rewrite (IH Hi).
Qed.

(** X1: discovery never fails and leaves the host alone.  A failed runtime
    query yields no containers; otherwise the result is the listing, in
    order, restricted to the containers whose backup label is exactly
    "true". *)
Theorem getBackupContainers_filters (W : World) (h : Host) :
  ∃ found,
    getBackupContainers W h = (Normal found, h)
    ∧ (∀ msg, listContainers W h = Throw msg → found = [])
    ∧ (∀ listed, listContainers W h = Normal listed →
         found `sublist_of` listed
         ∧ ∀ c, c ∈ found
                ↔ c ∈ listed ∧ label (labelPrefix W) c "backup" = Some "true").
Proof.
  unfold getBackupContainers. destruct (listContainers W h) as [listed|msg].
  - eexists. split; [done|]. split; [done|]. intros ? [= <-].
    split; [apply sublist_filter|]. intros c.
    rewrite list_elem_of_filter, strict_eq_true. tauto.
  - exists []. split; [done|]. split; [done|]. done.
Qed.

(** X2: a discovered container is always extracted as enabled, so the
    "disabled" guard of the loop never fires on a discovered container. *)
Theorem discovered_is_enabled
    (W : World) (h h' : Host) (found : list ContainerInfo)
    (c : ContainerInfo) (config : BackupConfig) :
  getBackupContainers W h = (Normal found, h') → c ∈ found →
  extractBackupConfig (labelPrefix W) c = Normal config →
  enabled config = true.
Proof.
  unfold getBackupContainers. intros Hget Hc Hcfg.
  assert (Hlabel : strict_eq (label (labelPrefix W) c "backup") "true" = true).
  { destruct (listContainers W h) as [listed|msg]; injection Hget as <- <-.
    - by apply list_elem_of_filter in Hc as [Hc _].
    - by apply elem_of_nil in Hc. }
  unfold extractBackupConfig in Hcfg. destruct (Names c); [done|].
  by injection Hcfg as <-.
Qed.

Lemma discovered_is_enabled_witness :
  ∃ config,
    extractBackupConfig "docker-backup-tool" Samples.mysql = Normal config
    ∧ enabled config = true.
Proof.
  eexists. split; [reflexivity|].
  apply (discovered_is_enabled Samples.calm Samples.fresh Samples.fresh
           [Samples.no_command; Samples.mysql] Samples.mysql).
  - vm_compute. reflexivity.
  - right. left.
  - reflexivity.
Defined.

(** X3: extraction throws exactly on a container without names; on every
    other container, whatever its labels (even none at all), it returns a
    configuration carrying the container's id. *)
Theorem extractBackupConfig_throws_iff_nameless (prefix : string) (c : ContainerInfo) :
  ((∃ msg, extractBackupConfig prefix c = Throw msg) ↔ Names c = [])
  ∧ (Names c ≠ [] →
     ∃ config, extractBackupConfig prefix c = Normal config
               ∧ containerId config = Id c).
Proof.
  unfold extractBackupConfig. destruct (Names c) as [|name0 rest]; split.
  - split; [done | eauto].
  - done.
  - split; [by intros [msg H] | done].
  - intros _. eexists. split; [done|]. done.
Qed.

(** X4: the container name is the first listed name with its first "/"
    removed: Docker's "/name" becomes "name", and a name without a slash is
    kept as it is. *)
Theorem extractBackupConfig_strips_slash
    (prefix : string) (c : ContainerInfo) (config : BackupConfig) (name0 : string) :
  extractBackupConfig prefix c = Normal config →
  head (Names c) = Some name0 →
  (∀ n, name0 = "/" +:+ n → containerName config = n)
  ∧ (¬ is_substring "/" name0 → containerName config = name0).
Proof.
  unfold extractBackupConfig. destruct (Names c) as [|n0 rest]; [done|].
  intros [= <-] [= ->]. simpl. split.
  - intros n ->. rewrite replace_at_prefix.
    + reflexivity.
    + apply prefix_spec. by exists n.
  - intros Hno. apply replace_absent. by apply includes_false_spec.
Qed.

Lemma extractBackupConfig_strips_slash_witness :
  ∃ config,
    extractBackupConfig "docker-backup-tool" Samples.mysql = Normal config
    ∧ containerName config = "mysql-app".
Proof.
  eexists. split; [reflexivity|].
  apply (extractBackupConfig_strips_slash "docker-backup-tool" Samples.mysql _
           "/mysql-app" eq_refl eq_refl).
  reflexivity.
Defined.

(** X5: a missing location label gives "/tmp/backup"; a location label that
    is present is taken as it is, the empty string included. *)
Theorem extractBackupConfig_location
    (prefix : string) (c : ContainerInfo) (config : BackupConfig) :
  extractBackupConfig prefix c = Normal config →
  (label prefix c "location" = None → location config = "/tmp/backup")
  ∧ (∀ v, label prefix c "location" = Some v → location config = v).
Proof.
  unfold extractBackupConfig. destruct (Names c); [done|].
  intros [= <-]. simpl. split; [by intros -> | by intros v ->].
Qed.

Lemma extractBackupConfig_location_witness :
  ∃ config,
    extractBackupConfig "docker-backup-tool" Samples.mysql = Normal config
    ∧ location config = "/tmp/backup".
Proof.
  eexists. split; [reflexivity|].
  apply (proj1 (extractBackupConfig_location "docker-backup-tool" Samples.mysql
                  _ eq_refl)).
  vm_compute. reflexivity.
Defined.

(** ** Artifact names *)

Lemma includes_char_cons (a c : ascii) (s : string) :
  includes (String a EmptyString) (String c s)
  = bool_decide (a = c) || includes (String a EmptyString) s.
Proof.
  change (includes (String a EmptyString) (String c s))
    with (String.prefix (String a EmptyString) (String c s)
          || includes (String a EmptyString) s).
  f_equal. simpl. destruct (Ascii.ascii_dec a c) as [->|Hne].
  - rewrite bool_decide_eq_true_2 by done. by destruct s.
  - by rewrite bool_decide_eq_false_2.
Qed.

Lemma replace_colon_dot_clean (a : ascii) (s : string) :
  a = ":"%char ∨ a = "."%char →
  includes (String a EmptyString) (replace_colon_dot s) = false.
Proof.
  intros Ha. induction s as [|c s IH]; [done|].
  cbn [replace_colon_dot]. rewrite includes_char_cons, IH, orb_false_r.
  apply bool_decide_eq_false_2.
  destruct (bool_decide (c = ":"%char)) eqn:H1;
    [|destruct (bool_decide (c = "."%char)) eqn:H2]; simpl.
  - by destruct Ha as [-> | ->].
  - by destruct Ha as [-> | ->].
  - apply bool_decide_eq_false in H1. apply bool_decide_eq_false in H2.
    destruct Ha as [-> | ->]; congruence.
Qed.

(** X6: the stamp put into an artifact name contains neither ":" nor ".",
    whatever the clock returns, and is as long as the clock's string. *)
Theorem timestamp_is_filesystem_safe (iso : string) :
  ¬ is_substring ":" (replace_colon_dot iso)
  ∧ ¬ is_substring "." (replace_colon_dot iso)
  ∧ String.length (replace_colon_dot iso) = String.length iso.
Proof.
  split; [|split].
  - apply includes_false_spec, replace_colon_dot_clean. by left.
  - apply includes_false_spec, replace_colon_dot_clean. by right.
  - induction iso as [|c s IH]; simpl; [done | by rewrite IH].
Qed.

(** X7: every artifact name [executeBackup] builds contains the separator,
    so the file it copies to the host is a candidate of the next prune. *)
Theorem artifact_is_candidate (config : BackupConfig) (ts : string) :
  is_candidate (backupFileName config ts) = true.
Proof.
  apply includes_spec. by exists (containerName config), ts.
Qed.


(** ** The exec stream *)

Lemma accumulate_app (front back : list chunk) :
  accumulate (front ++ back) = accumulate front +:+ accumulate back.
Proof.
  unfold accumulate at 1. rewrite foldl_app. fold (accumulate front).
  apply accumulate_from.
Qed.

Lemma is_substring_middle (needle front s back : string) :
  is_substring needle s → is_substring needle (front +:+ s +:+ back).
Proof.
  intros (pre & post & ->). exists (front +:+ pre), (post +:+ back).
  by rewrite !append_assoc.
Qed.

(** X9: one string chunk that contains "error" or "Error" is enough for the
    call to be rejected, wherever in the stream it arrives. *)
Theorem execInContainer_rejects_on_marked_chunk (b : ExecBehaviour) (s : string) :
  session_established b → ChunkString s ∈ chunks b →
  is_substring "error" s ∨ is_substring "Error" s →
  execInContainer b = Rejected (accumulate (chunks b)).
Proof.
  intros Hs Hin Hmark. rewrite (execInContainer_established b Hs).
  apply list_elem_of_split in Hin as (front & back & ->).
  assert (Hacc : accumulate (front ++ ChunkString s :: back)
                 = accumulate front +:+ s +:+ accumulate back).
  { rewrite accumulate_app. f_equal.
    change (ChunkString s :: back) with ([ChunkString s] ++ back).
    by rewrite accumulate_app. }
  rewrite Hacc. unfold on_end.
  destruct Hmark as [Hm|Hm];
    apply (is_substring_middle _ (accumulate front) _ (accumulate back)) in Hm;
    apply includes_spec in Hm; rewrite Hm; [|done].
  by rewrite orb_true_r.
Qed.

Lemma execInContainer_rejects_on_marked_chunk_witness :
  ∃ output, execInContainer Samples.split_marker = Rejected output.
Proof.
  eexists.
  apply (execInContainer_rejects_on_marked_chunk Samples.split_marker
           "mysqldump: Got error: 1045").
  - split; intros; discriminate.
  - do 2 right. left.
  - left. apply includes_spec. reflexivity.
Defined.

(** ** Sorting *)

(** X10: the sort leaves a list that is already ordered newest first as it
    is; in particular candidates with equal modification times keep the
    order in which the directory listed them. *)
Theorem sort_keeps_ordered_list (l : list Candidate) :
  StronglySorted newer_first l → sort by_mtime_desc l = l.
Proof.
  induction 1 as [|x l Hl IH Hx]; simpl; [done|].
  rewrite IH. destruct Hx as [|y l' Hy _]; simpl; [done|].
  unfold by_mtime_desc, newer_first in *.
  by destruct (Z.leb_spec (cmtime y - cmtime x) 0); [|lia].
Qed.

Lemma sort_keeps_ordered_list_witness :
  sort by_mtime_desc
    [{| cname := "a_1"; cmtime := 5 |}; {| cname := "b_1"; cmtime := 5 |};
     {| cname := "c_1"; cmtime := 3 |}]
  = [{| cname := "a_1"; cmtime := 5 |}; {| cname := "b_1"; cmtime := 5 |};
     {| cname := "c_1"; cmtime := 3 |}].
Proof.
  apply sort_keeps_ordered_list.
  repeat constructor; unfold newer_first; simpl; lia.
Defined.

(** ** Pruning, whatever the directory and the retention *)

Lemma statSync_name (d : Dir) (file : string) (c : Candidate) :
  statSync d file = Some c → cname c = file.
Proof.
  unfold statSync. destruct (lookup_entry file d) as [e|]; [|done].
  destruct (statable e); [|done]. by intros [= <-].
Qed.

Lemma backupFiles_names (d : Dir) (files : list Candidate) :
  backupFiles d = Some files →
  Forall (λ c, is_candidate (cname c) = true) files.
Proof.
  unfold backupFiles. intros H. apply fmap_Some in H as (raw & Hraw & ->).
  apply Forall_forall. intros c Hc. rewrite elem_of_sort in Hc.
  apply mapM_Some_1 in Hraw.
  assert (Hall : Forall (λ f, is_candidate f = true)
                   (filter (λ f, is_candidate f = true) (readdir d))).
  { apply Forall_forall. intros f Hf. by apply list_elem_of_filter in Hf as [Hf _]. }
  revert Hall Hc. induction Hraw as [|f c' fs cs Hstat _ IH]; intros Hall Hc.
  - by apply elem_of_nil in Hc.
  - apply Forall_cons in Hall as [Hf Hall].
    apply elem_of_cons in Hc as [->|Hc]; [|by apply IH].
    by rewrite (statSync_name d f c' Hstat).
Qed.

(** The prune in closed form, for any listing. *)
Lemma prune_cases (d : Dir) (retention : num) :
  prune d retention = {| remaining := d; attempted := [] |}
  ∨ ∃ files,
      backupFiles d = Some files
      ∧ prune d retention
        = {| remaining :=
               filter (λ e, name e ∉ cname <$> deleted_prefix d (slice retention files)) d;
             attempted :=
               cname <$> take (S (length (deleted_prefix d (slice retention files))))
                              (slice retention files) |}.
Proof.
  unfold prune. destruct (backupFiles d) as [files|]; [|by left].
  destruct (gt_num _ retention); [|by left].
  right. exists files. split; [done|]. by rewrite remove_each_spec.
Qed.

Lemma deleted_prefix_is_prefix (d : Dir) (files : list Candidate) :
  deleted_prefix d files = take (length (deleted_prefix d files)) files.
Proof.
  induction files as [|c files IH]; simpl; [done|].
  destruct (deletable d c); simpl; [by rewrite <- IH | done].
Qed.

Lemma elem_of_deleted_prefix (d : Dir) (files : list Candidate) (c : Candidate) :
  c ∈ deleted_prefix d files → c ∈ files.
Proof.
  rewrite deleted_prefix_is_prefix. intros Hc.
  rewrite <- (take_drop (length (deleted_prefix d files)) files).
  apply elem_of_app. by left.
Qed.

(** X11: whatever the retention (negative and [NaN] included) and whatever
    fails, a prune only ever removes entries: what remains is the listing
    with some entries left out, and no entry whose name lacks the separator
    is among those left out. *)
Theorem prune_only_removes_candidates (d : Dir) (retention : num) :
  remaining (prune d retention) `sublist_of` d
  ∧ ∀ e, e ∈ d → is_candidate (name e) = false →
         e ∈ remaining (prune d retention).
Proof.
  destruct (prune_cases d retention) as [->|(files & Hfiles & ->)]; simpl.
  - split; [done|]. by intros e He _.
  - split; [apply sublist_filter|]. intros e He Hno.
    apply list_elem_of_filter. split; [|done].
    intros Hin. apply list_elem_of_fmap in Hin as (c & Hn & Hc).
    apply elem_of_deleted_prefix in Hc.
    assert (Hcf : c ∈ files).
    { eapply elem_of_sublist; [exact Hc | apply slice_sublist]. }
    pose proof (backupFiles_names d files Hfiles) as Hall.
    rewrite Forall_forall in Hall. specialize (Hall c Hcf). congruence.
Qed.

(** X12: nothing disappears silently: every entry a prune removes is one on
    which [fs.remove] was called. *)
Theorem prune_removes_only_attempted (d : Dir) (retention : num) (e : DirEntry) :
  e ∈ d → e ∉ remaining (prune d retention) →
  name e ∈ attempted (prune d retention).
Proof.
  intros He. destruct (prune_cases d retention) as [->|(files & _ & ->)]; simpl.
  - by intros [].
  - intros Hgone.
    assert (Hin : name e ∈ cname <$> deleted_prefix d (slice retention files)).
    { destruct (decide (name e ∈ cname <$> deleted_prefix d (slice retention files)))
        as [|Hout]; [done|].
      destruct Hgone. by apply list_elem_of_filter. }
    rewrite deleted_prefix_is_prefix in Hin.
    apply list_elem_of_fmap in Hin as (c & -> & Hc).
    apply list_elem_of_fmap_2.
    apply elem_of_take in Hc as (i & Hi & Hlt).
    apply elem_of_take. exists i. split; [done | lia].
Qed.

Lemma prune_removes_only_attempted_witness :
  "db_2024-01-01" ∈ attempted (prune Samples.three (Num 2)).
Proof.
  apply (prune_removes_only_attempted Samples.three (Num 2)
           (Samples.file "db_2024-01-01" 10 true)).
  - do 2 right. left.
  - vm_compute. intros H.
    repeat (apply elem_of_cons in H as [H|H]; [discriminate|]).
    by apply elem_of_nil in H.
Defined.

(** X13: with a retention [R ≥ 0] the [R] newest candidates are safe even
    when deletions fail: [fs.remove] is only ever called on candidates
    behind index [R], and each of the first [R] candidates is still in the
    directory afterwards. *)
Theorem prune_spares_newest (d : Dir) (R : Z) (files : list Candidate) :
  well_formed d → 0 ≤ R → backupFiles d = Some files →
  (∀ n, n ∈ attempted (prune d (Num R)) → n ∈ cname <$> drop (Z.to_nat R) files)
  ∧ (∀ c, c ∈ take (Z.to_nat R) files →
          ∃ e, e ∈ remaining (prune d (Num R)) ∧ to_cand e = c).
Proof.
  intros Hwf HR Hfiles.
  destruct (backupFiles_inv d files Hwf Hfiles) as [Hst Hsorted].
  assert (Hentry : ∀ c, c ∈ files → ∃ e, e ∈ d ∧ to_cand e = c).
  { intros c Hc. rewrite Hsorted, elem_of_sort, elem_of_candidates in Hc.
    destruct Hc as (e & He & -> & _). by exists e. }
  destruct (prune_cases d (Num R)) as [->|(files' & Hfiles' & ->)]; simpl.
  - split; [by intros n Hn; apply elem_of_nil in Hn|].
    intros c Hc. apply Hentry.
    rewrite <- (take_drop (Z.to_nat R) files). apply elem_of_app. by left.
  - assert (files' = files) as -> by congruence.
    rewrite slice_nonneg by done. split.
    + intros n Hn. apply list_elem_of_fmap in Hn as (c & -> & Hc).
      apply list_elem_of_fmap_2.
      eapply elem_of_sublist; [exact Hc | apply sublist_take].
    + intros c Hc.
      assert (Hcf : c ∈ files).
      { rewrite <- (take_drop (Z.to_nat R) files). apply elem_of_app. by left. }
      destruct (Hentry c Hcf) as (e & He & <-). exists e. split; [|done].
      apply list_elem_of_filter. split; [|done].
      intros Hin. apply list_elem_of_fmap in Hin as (c' & Hn & Hc').
      apply elem_of_deleted_prefix in Hc'.
      assert (Hnd : NoDup (cname <$> files)).
      { rewrite Hsorted, sort_perm. by apply candidates_names_NoDup. }
      rewrite <- (take_drop (Z.to_nat R) files), fmap_app in Hnd.
      apply NoDup_app in Hnd as (_ & Hdisj & _).
      apply (Hdisj (name e)).
      * by apply (list_elem_of_fmap_2 cname) in Hc.
      * rewrite Hn. by apply list_elem_of_fmap_2.
Qed.

Lemma prune_spares_newest_witness :
  ∃ e, e ∈ remaining (prune Samples.stuck (Num 1))
       ∧ to_cand e = {| cname := "db_2024-01-03"; cmtime := 30 |}.
Proof.
  assert (Hwf : well_formed Samples.stuck) by (unfold well_formed; compute_done).
  apply (proj2 (prune_spares_newest Samples.stuck 1 _ Hwf (Z.le_0_1) eq_refl)).
  left.
Defined.

(** ** Retention values from labels *)

Lemma prune_NaN (d : Dir) : prune d NaN = {| remaining := d; attempted := [] |}.
Proof. unfold prune. by destruct (backupFiles d). Qed.

(** X14: for a container without a retention label no backup is ever
    deleted: the cleanup [executeBackup] runs with the extracted retention
    leaves every host file system as it is. *)
Theorem missing_retention_never_prunes
    (prefix : string) (c : ContainerInfo) (config : BackupConfig)
    (path : string) (fs : FS) :
  extractBackupConfig prefix c = Normal config →
  label prefix c "retention" = None →
  cleanupOldBackups path (retention config) fs = fs.
Proof.
  intros Hcfg Hlabel. rewrite (extract_retention_missing _ _ _ Hcfg Hlabel).
  unfold cleanupOldBackups. destruct (fs !! path) as [d|] eqn:Hd; [|done].
  rewrite prune_NaN. simpl. by apply insert_id.
Qed.

Lemma missing_retention_never_prunes_witness :
  ∃ config,
    extractBackupConfig "docker-backup-tool" Samples.mysql = Normal config
    ∧ cleanupOldBackups "/backups/mysql-app" (retention config)
        {[ "/backups/mysql-app" := Samples.three ]}
      = {[ "/backups/mysql-app" := Samples.three ]}.
Proof.
  eexists. split; [reflexivity|].
  apply (missing_retention_never_prunes "docker-backup-tool" Samples.mysql).
  - reflexivity.
  - vm_compute. reflexivity.
Defined.

Lemma filter_on_members {A : Type} (P Q : A → Prop)
    `{!∀ x, Decision (P x), !∀ x, Decision (Q x)} (l : list A) :
  (∀ x, x ∈ l → (P x ↔ Q x)) → filter P l = filter Q l.
Proof.
  induction l as [|x l IH]; intros Hiff; [done|].
  rewrite !filter_cons.
  assert (Hx : P x ↔ Q x) by (apply Hiff; left).
  rewrite IH by (intros y Hy; apply Hiff; by right).
  destruct (decide (P x)), (decide (Q x)); tauto || done.
Qed.

(** X15: in a directory whose candidates can all be stat'ed and whose
    entries can all be removed, the retention 0 (the label value "0")
    removes every candidate, the artifact just copied included: only the
    entries without the separator remain. *)
Theorem retention_zero_removes_all_candidates (d : Dir) :
  well_formed d → stat_ok d → Forall (λ e, removable e = true) d →
  remaining (prune d (Num 0)) = filter (λ e, is_candidate (name e) ≠ true) d.
Proof.
  intros Hwf Hst Hall.
  set (files := sort by_mtime_desc (candidates d)).
  assert (Hkeep : ∀ e, e ∈ d →
            (name e ∉ cname <$> files ↔ is_candidate (name e) ≠ true)).
  { intros e He. pose proof (survives_iff d 0 e Hwf He) as Hs.
    simpl in Hs. fold files in Hs. rewrite drop_0, take_0 in Hs. rewrite Hs.
    unfold is_candidate. rewrite <- includes_spec. split.
    - intros [Hno|Hin]; [done | by apply elem_of_nil in Hin].
    - intros Hno. by left. }
  destruct (decide (0 < Z.of_nat (length files))) as [Hlt|Hempty].
  - rewrite (prune_all_removable d 0 Hwf Hst Hall (Z.le_refl 0) Hlt). simpl.
    rewrite drop_0. by apply filter_on_members.
  - assert (Hnil : files = []) by (destruct files; [done | simpl in Hempty; lia]).
    rewrite (prune_spec d (Num 0) Hwf Hst). fold files. rewrite Hnil. simpl.
    rewrite <- (filter_names_nil d) at 1.
    apply filter_on_members. intros e He. rewrite <- (Hkeep e He), Hnil. done.
Qed.

Lemma retention_zero_removes_all_candidates_witness :
  remaining (prune Samples.mixed (Num 0)) = [Samples.file "README" 5 true].
Proof.
  rewrite (retention_zero_removes_all_candidates Samples.mixed).
  - vm_compute. reflexivity.
  - unfold well_formed. compute_done.
  - unfold stat_ok. compute_done.
  - compute_done.
Defined.

(** X25: one candidate that cannot be stat'ed stops the whole prune before
    any deletion: whatever the retention, the directory stays as it is and
    [fs.remove] is never called. *)
Theorem prune_stops_on_failed_stat (d : Dir) (retention : num) (e : DirEntry) :
  well_formed d → e ∈ d → is_candidate (name e) = true → statable e = false →
  prune d retention = {| remaining := d; attempted := [] |}.
Proof.
  intros Hwf He Hc Hst. apply prune_unreadable.
  rewrite (backupFiles_decide d Hwf), decide_False; [done|].
  unfold stat_ok. rewrite Forall_forall. intros Hall.
  assert (Hin : e ∈ filter (λ e, is_candidate (name e) = true) d)
    by by apply list_elem_of_filter.
  specialize (Hall e Hin). congruence.
Qed.

Lemma prune_stops_on_failed_stat_witness :
  prune Samples.dangling (Num 1)
  = {| remaining := Samples.dangling; attempted := [] |}.
Proof.
  apply (prune_stops_on_failed_stat Samples.dangling (Num 1)
           {| name := "db_latest"; mtime := 0; removable := true;
              statable := false |}).
  - unfold well_formed. compute_done.
  - do 2 right. left.
  - reflexivity.
  - reflexivity.
Defined.

(** X16: when every candidate can be stat'ed (the candidate array exists)
    and every entry can be removed, a negative retention [-m] (the label
    value "-m") makes every prune remove the [m] oldest candidates and keep
    the others. *)
Theorem negative_retention_removes_oldest (d : Dir) (m : nat) (files : list Candidate) :
  well_formed d → Forall (λ e, removable e = true) d →
  backupFiles d = Some files → (1 ≤ m ≤ length files)%nat →
  let oldest := drop (length files - m) files in
  length oldest = m
  ∧ attempted (prune d (Num (- Z.of_nat m))) = cname <$> oldest
  ∧ remaining (prune d (Num (- Z.of_nat m)))
    = filter (λ e, name e ∉ cname <$> oldest) d.
Proof.
  intros Hwf Hall Hfiles Hm oldest.
  destruct (backupFiles_inv d files Hwf Hfiles) as [Hst Hsorted].
  assert (Hslice : slice (Num (- Z.of_nat m)) files = oldest).
  { unfold slice, oldest.
    destruct (Z.ltb_spec (- Z.of_nat m) 0); [|lia]. f_equal. lia. }
  split; [unfold oldest; rewrite length_drop; lia|].
  rewrite (prune_spec d _ Hwf Hst), <- Hsorted. simpl.
  destruct (Z.ltb_spec (- Z.of_nat m) (Z.of_nat (length files))); [|lia].
  rewrite Hslice, (deleted_prefix_all d _ Hall). rewrite take_ge by lia. done.
Qed.

Lemma negative_retention_removes_oldest_witness :
  attempted (prune Samples.three (Num (- Z.of_nat 1))) = ["db_2024-01-01"].
Proof.
  assert (Hwf : well_formed Samples.three) by (unfold well_formed; compute_done).
  assert (Hall : Forall (λ e, removable e = true) Samples.three) by compute_done.
  destruct (negative_retention_removes_oldest Samples.three 1 _ Hwf Hall eq_refl)
    as (_ & Ha & _).
  - simpl. lia.
  - exact Ha.
Defined.

(** ** The pipeline as a whole *)

Section PipelineExtras.
Context (W : World).



(** X19: a rejection of [fs.ensureDir] is not turned into [false]:
    [executeBackup] rejects with the same error right after that call.  And
    whenever [executeBackup] throws, it has run no command in the
    container, no copy and no cleanup. *)
Theorem executeBackup_rethrows_directory_failure (config : BackupConfig) (h : Host) :
  (∀ msg,
     ensureDir_err W (record (EvExecuteBackup config) h) (hostBackupPath W config)
     = Some msg →
     executeBackup W config h
     = (Throw msg,
        record (EvEnsureDir (hostBackupPath W config))
               (record (EvExecuteBackup config) h)))
  ∧ (∀ msg,
       fst (executeBackup W config h) = Throw msg →
       ∀ ev, ev ∈ drop (length (trace h)) (trace (snd (executeBackup W config h))) →
             ¬ is_inner ev).
Proof.
  rewrite (executeBackup_unfold W config h). simpl. unfold ensureDir.
  destruct (ensureDir_err W _ _) as [msg0|]; simpl.
  - split; [by intros msg [= <-]|].
    intros _ _ ev. rewrite <- app_assoc, drop_app_length. simpl.
    intros [->|Hin]%elem_of_cons; [by intros []|].
    apply list_elem_of_singleton in Hin as ->. by intros [].
  - split; [done|].
    destruct (fs (record (EvExecuteBackup config) h) !! hostBackupPath W config);
      destruct (run_all W _ _) as [[[]|msg0] hk]; simpl; by intros msg.
Qed.

Lemma run_loop_names (containers : list ContainerInfo) (results rs : list RunResult)
    (h h' : Host) :
  run_loop W containers results h = (Normal rs, h') →
  container <$> rs
  = (container <$> results) ++ eligible_names (labelPrefix W) containers.
Proof.
  revert results h. induction containers as [|c rest IH]; intros results h; simpl.
  - intros [= <- _]. by rewrite app_nil_r.
  - unfold mbind at 1, M_bind at 1, lift.
    destruct (extractBackupConfig (labelPrefix W) c) as [cfg|msg]; [|done].
    unfold eligible.
    destruct (enabled cfg); simpl; [|apply IH].
    destruct (truthy (command cfg)); simpl; [|apply IH].
    unfold mbind, M_bind.
    destruct (executeBackup W cfg h) as [[ok|msg] h1]; [|done].
    intros Hrun. rewrite (IH _ _ Hrun), fmap_app, <- app_assoc. done.
Qed.

(** X20: a run that returns a summary reports on exactly the discovered
    containers that pass both guards, once each and in discovery order,
    whether their backup succeeded or not. *)
Theorem runBackups_reports_each_eligible (h : Host)
    (found : list ContainerInfo) (rs : list RunResult) :
  getBackupContainers W h = (Normal found, h) →
  fst (runBackups W h) = Normal (Some rs) →
  container <$> rs = eligible_names (labelPrefix W) found.
Proof.
  intros Hget. unfold runBackups, mbind, M_bind. rewrite Hget.
  destruct (bool_decide _); [done|].
  destruct (run_loop W found [] h) as [[rs'|msg] h1] eqn:Hloop; [|done].
  intros [= <-]. by rewrite (run_loop_names found [] rs' h h1 Hloop).
Qed.

(** X21: when nothing is discovered, because the runtime query failed or no
    listed container carries the backup label, a run does nothing at all
    and returns no summary. *)
Theorem runBackups_without_containers (h : Host) :
  (∀ listed, listContainers W h = Normal listed →
     Forall (λ c, label (labelPrefix W) c "backup" ≠ Some "true") listed) →
  runBackups W h = (Normal None, h).
Proof.
  intros Hnone. unfold runBackups, mbind, M_bind, getBackupContainers.
  destruct (listContainers W h) as [listed|msg]; [|done].
  specialize (Hnone listed eq_refl).
  assert (Hfilter : filter (λ c, strict_eq (label (labelPrefix W) c "backup") "true" = true)
                      listed = []).
  { induction Hnone as [|c cs Hc _ IH]; [done|].
    rewrite filter_cons, decide_False; [done|]. by rewrite strict_eq_true. }
  by rewrite Hfilter.
Qed.

(** X22: a host directory that cannot be created ends the whole run: the
    rejection of [ensureDir] leaves the loop, the containers listed after
    the failing one are not processed and no summary is returned. *)
Theorem run_loop_aborts_when_directory_fails
    (c : ContainerInfo) (config : BackupConfig) (rest : list ContainerInfo)
    (results : list RunResult) (h : Host) (msg : string) :
  extractBackupConfig (labelPrefix W) c = Normal config →
  eligible config = true →
  ensureDir_err W (record (EvExecuteBackup config) h) (hostBackupPath W config)
  = Some msg →
  run_loop W (c :: rest) results h
  = (Throw msg,
     record (EvEnsureDir (hostBackupPath W config))
            (record (EvExecuteBackup config) h)).
Proof.
  intros Hcfg Hel Hdir. simpl. unfold mbind at 1, M_bind at 1, lift.
  rewrite Hcfg. unfold eligible in Hel. apply andb_true_iff in Hel as [-> ->].
  simpl. unfold mbind at 1, M_bind at 1.
  rewrite (executeBackup_unfold W config h). simpl.
  unfold ensureDir. by rewrite Hdir.
Qed.

End PipelineExtras.

Lemma runBackups_reports_each_eligible_witness :
  container <$> [{| container := "mysql-app"; success := true |}]
  = eligible_names "docker-backup-tool" [Samples.no_command; Samples.mysql].
Proof.
  apply (runBackups_reports_each_eligible Samples.calm Samples.fresh).
  - vm_compute. reflexivity.
  - vm_compute. reflexivity.
Defined.

Lemma runBackups_without_containers_witness :
  runBackups Samples.unreachable Samples.fresh = (Normal None, Samples.fresh).
Proof.
  apply (runBackups_without_containers Samples.unreachable Samples.fresh).
  intros listed H. discriminate.
Defined.

Lemma run_loop_aborts_when_directory_fails_witness :
  fst (run_loop Samples.read_only [Samples.mysql; Samples.no_command] [] Samples.fresh)
  = Throw "EROFS: read-only file system, mkdir".
Proof.
  by rewrite (run_loop_aborts_when_directory_fails Samples.read_only Samples.mysql
                _ [Samples.no_command] [] Samples.fresh
                "EROFS: read-only file system, mkdir" eq_refl eq_refl eq_refl).
Defined.
